(** * Scoring engine: protocol checks, dispatcher, round scheduler, result log

    A shallow embedding of [scoring_engine/checks.py], [config.py],
    [database.py] and the scheduler half of [app.py], followed by the
    properties of the specification that were checked against it.

    Conventions.
    - A Python [str] is the list of its Unicode code points ([list N]);
      [bytes] is [list byte].
    - Library calls that touch the network (sockets, smtplib, ftplib,
      urllib, dnspython) are answered by an environment record [Env];
      the embedded functions are pure functions of that record.
    - Python exceptions are values of [exn]; code that may raise lives in
      the error monad [Result]. *)

From Stdlib Require Import ZArith NArith List Strings.String Strings.Ascii Strings.Byte Bool Lia Sorting.Sorted.
From stdpp Require Import base tactics option list gmap.
Import ListNotations.

Local Open Scope Z_scope.

(* ===================================================================== *)
(** ** Python values *)
(* ===================================================================== *)

Module Py.

Abbreviation str := (list N).
Abbreviation bytes := (list byte).

#[global] Instance byte_eq_dec : EqDecision byte := Byte.byte_eq_dec.

(** A string literal of the source (ASCII only). *)
Definition lit (s : string) : str :=
  List.map N_of_ascii (list_ascii_of_string s).
Arguments lit s%_string : simpl never.

(** [str(n)] and [f"{n}"] for an integer. *)
Fixpoint digits_of_uint (d : Decimal.uint) : str :=
  match d with
  | Decimal.Nil => []
  | Decimal.D0 d => 48%N :: digits_of_uint d
  | Decimal.D1 d => 49%N :: digits_of_uint d
  | Decimal.D2 d => 50%N :: digits_of_uint d
  | Decimal.D3 d => 51%N :: digits_of_uint d
  | Decimal.D4 d => 52%N :: digits_of_uint d
  | Decimal.D5 d => 53%N :: digits_of_uint d
  | Decimal.D6 d => 54%N :: digits_of_uint d
  | Decimal.D7 d => 55%N :: digits_of_uint d
  | Decimal.D8 d => 56%N :: digits_of_uint d
  | Decimal.D9 d => 57%N :: digits_of_uint d
  end.

Definition str_of_N (n : N) : str := digits_of_uint (N.to_uint n).

Definition str_of_Z (z : Z) : str :=
  match z with
  | Z0 => str_of_N 0
  | Zpos p => str_of_N (Npos p)
  | Zneg p => 45%N :: str_of_N (Npos p)
  end.

(** One lowercase hexadecimal digit. *)
Definition hex_digit (n : N) : N :=
  if (n <? 10)%N then (48 + n)%N else (87 + n)%N.

(** [f"{b:02x}"] for a byte value. *)
Definition hex02 (b : N) : str := [hex_digit (b / 16); hex_digit (b mod 16)].

(** [f"{c:04x}"] for a code point below 0x10000. *)
Definition hex04 (c : N) : str :=
  [hex_digit (c / 4096); hex_digit ((c / 256) mod 16);
   hex_digit ((c / 16) mod 16); hex_digit (c mod 16)].

(** [s[:n]] *)
Definition slice_to {A} (n : nat) (l : list A) : list A := firstn n l.
(** [s[n:]] *)
Definition slice_from {A} (n : nat) (l : list A) : list A := skipn n l.
(** [s[i:j]] for [0 <= i], [0 <= j] *)
Definition slice {A} (i j : nat) (l : list A) : list A :=
  firstn (j - i) (skipn i l).

(** [bytes.decode("ascii", errors="replace")] *)
Definition decode_ascii_replace (b : bytes) : str :=
  List.map (fun x => let n := Byte.to_N x in
                     if (n <? 128)%N then n else 65533%N) b.

Definition in_range (lo hi x : N) : bool := ((lo <=? x) && (x <=? hi))%N.
Definition is_cont (x : N) : bool := in_range 128 191 x.

(** Range allowed for the second byte after a given lead byte. *)
Definition second_lo (b0 : N) : N :=
  if (b0 =? 224)%N then 160%N else if (b0 =? 240)%N then 144%N else 128%N.
Definition second_hi (b0 : N) : N :=
  if (b0 =? 237)%N then 159%N else if (b0 =? 244)%N then 143%N else 191%N.

(** UTF-8 decoding with [errors="replace"]: every maximal ill-formed
    prefix is replaced by one U+FFFD. *)
Fixpoint utf8_replace (bs : list N) : str :=
  match bs with
  | [] => []
  | b0 :: r0 =>
    if (b0 <? 128)%N then b0 :: utf8_replace r0
    else if in_range 194 223 b0 then
      match r0 with
      | [] => [65533%N]
      | b1 :: r1 =>
        if is_cont b1
        then ((b0 - 192) * 64 + (b1 - 128))%N :: utf8_replace r1
        else 65533%N :: utf8_replace r0
      end
    else if in_range 224 239 b0 then
      match r0 with
      | [] => [65533%N]
      | b1 :: r1 =>
        if in_range (second_lo b0) (second_hi b0) b1 then
          match r1 with
          | [] => [65533%N]
          | b2 :: r2 =>
            if is_cont b2
            then ((b0 - 224) * 4096 + (b1 - 128) * 64 + (b2 - 128))%N
                 :: utf8_replace r2
            else 65533%N :: utf8_replace r1
          end
        else 65533%N :: utf8_replace r0
      end
    else if in_range 240 244 b0 then
      match r0 with
      | [] => [65533%N]
      | b1 :: r1 =>
        if in_range (second_lo b0) (second_hi b0) b1 then
          match r1 with
          | [] => [65533%N]
          | b2 :: r2 =>
            if is_cont b2 then
              match r2 with
              | [] => [65533%N]
              | b3 :: r3 =>
                if is_cont b3
                then ((b0 - 240) * 262144 + (b1 - 128) * 4096
                      + (b2 - 128) * 64 + (b3 - 128))%N :: utf8_replace r3
                else 65533%N :: utf8_replace r2
              end
            else 65533%N :: utf8_replace r1
          end
        else 65533%N :: utf8_replace r0
      end
    else 65533%N :: utf8_replace r0
  end.

(** [bytes.decode("utf-8", errors="replace")] *)
Definition decode_utf8_replace (b : bytes) : str :=
  utf8_replace (List.map Byte.to_N b).

(** [str.isspace] on one code point. *)
Definition isspace (c : N) : bool :=
  in_range 9 13 c || in_range 28 32 c || (c =? 133)%N || (c =? 160)%N
  || (c =? 5760)%N || in_range 8192 8202 c || (c =? 8232)%N
  || (c =? 8233)%N || (c =? 8239)%N || (c =? 8287)%N || (c =? 12288)%N.

Fixpoint lstrip (s : str) : str :=
  match s with
  | [] => []
  | c :: r => if isspace c then lstrip r else s
  end.

(** [str.strip()] *)
Definition strip (s : str) : str := rev (lstrip (rev (lstrip s))).

Fixpoint startswith (p s : str) : bool :=
  match p, s with
  | [], _ => true
  | _ :: _, [] => false
  | a :: p', b :: s' => (a =? b)%N && startswith p' s'
  end.

(** [needle in hay] for strings. *)
Fixpoint contains (needle hay : str) : bool :=
  startswith needle hay ||
  match hay with
  | [] => false
  | _ :: hay' => contains needle hay'
  end.

(** [sum(l)] for a list of integers. *)
Definition Zsum (l : list Z) : Z := fold_right Z.add 0 l.

(** What [needle in hay] decides: [needle] occurs somewhere in [hay]. *)
Definition occurs_in (needle hay : str) : Prop :=
  exists pre post, hay = pre ++ needle ++ post.

(** Strings made of ASCII characters only. *)
Definition ascii_only (s : str) : Prop := Forall (fun c => (c < 128)%N) s.

(** Truthiness of an optional string: [None] and [""] are falsy. *)
Definition truthy (o : option str) : bool :=
  match o with
  | Some (_ :: _) => true
  | _ => false
  end.

(** [sep.join(l)] *)
Fixpoint join (sep : str) (l : list str) : str :=
  match l with
  | [] => []
  | [x] => x
  | x :: r => x ++ sep ++ join sep r
  end.

(** [s.split(".")]: the pieces between the dots, empty pieces kept. *)
Fixpoint split_dot_aux (cur : str) (s : str) : list str :=
  match s with
  | [] => [rev cur]
  | c :: r => if (c =? 46)%N then rev cur :: split_dot_aux [] r
              else split_dot_aux (c :: cur) r
  end.
Definition split_dot (s : str) : list str := split_dot_aux [] s.

(** [s.split(sep)] for a one-character separator: the pieces between
    the separators, empty pieces kept; the list is never empty. *)
Fixpoint split_on_aux (sep : N) (cur : str) (s : str) : list str :=
  match s with
  | [] => [rev cur]
  | c :: r => if (c =? sep)%N then rev cur :: split_on_aux sep [] r
              else split_on_aux sep (c :: cur) r
  end.
Definition split_on (sep : N) (s : str) : list str := split_on_aux sep [] s.

(** [s.split()]: the maximal runs of characters that are not white
    space. *)
Fixpoint split_ws_aux (cur : str) (s : str) : list str :=
  match s with
  | [] => match cur with [] => [] | _ => [rev cur] end
  | c :: r =>
    if isspace c
    then match cur with
         | [] => split_ws_aux [] r
         | _ => rev cur :: split_ws_aux [] r
         end
    else split_ws_aux (c :: cur) r
  end.
Definition split_ws (s : str) : list str := split_ws_aux [] s.

(** The characters of [s] up to its first white space. *)
Fixpoint word (s : str) : str :=
  match s with
  | [] => []
  | c :: r => if isspace c then [] else c :: word r
  end.

(** The line boundaries of [str.splitlines]. *)
Definition is_linebreak (c : N) : bool :=
  in_range 10 13 c || in_range 28 30 c || (c =? 133)%N || (c =? 8232)%N
  || (c =? 8233)%N.

(** [s.splitlines()]: the lines without their terminators; a carriage
    return followed by a line feed is one terminator; no empty last line
    after a final terminator. *)
Fixpoint splitlines_aux (cur : str) (s : str) : list str :=
  match s with
  | [] => match cur with [] => [] | _ => [rev cur] end
  | c :: r =>
    if (c =? 13)%N then
      match r with
      | c' :: r' => if (c' =? 10)%N then rev cur :: splitlines_aux [] r'
                    else rev cur :: splitlines_aux [] r
      | [] => rev cur :: splitlines_aux [] r
      end
    else if is_linebreak c then rev cur :: splitlines_aux [] r
    else splitlines_aux (c :: cur) r
  end.
Definition splitlines (s : str) : list str := splitlines_aux [] s.

End Py.

Import Py.

(* ===================================================================== *)
(** ** Exceptions and the error monad *)
(* ===================================================================== *)

(** The exception classes the source distinguishes in its [except]
    clauses.  [OSError] stands for any [OSError] without a more specific
    constructor here, [Exception] for any other subclass of Python's
    [Exception]. *)
Inductive exn : Type :=
| socket_timeout (m : str)
| ConnectionRefusedError (m : str)
| OSError (m : str)
| URLError (reason : str)
| HTTPError (code : Z) (reason : str)
| SMTPException (m : str)
| ftplib_error_perm (m : str)
| ftplib_Error (m : str)
| EOFError (m : str)
| ValueError (m : str)
| Exception (m : str).

(** [str(e)] *)
Definition exn_str (e : exn) : str :=
  match e with
  | socket_timeout m | ConnectionRefusedError m | OSError m
  | SMTPException m | ftplib_error_perm m | ftplib_Error m
  | EOFError m | ValueError m | Exception m => m
  | URLError r => lit "<urlopen error " ++ r ++ lit ">"
  | HTTPError c r => lit "HTTP Error " ++ str_of_Z c ++ lit ": " ++ r
  end.

(** [isinstance(e, C)] for the classes named in [except] clauses. *)
Definition is_socket_timeout (e : exn) : bool :=
  match e with socket_timeout _ => true | _ => false end.
Definition is_ConnectionRefusedError (e : exn) : bool :=
  match e with ConnectionRefusedError _ => true | _ => false end.
Definition is_OSError (e : exn) : bool :=
  match e with
  | socket_timeout _ | ConnectionRefusedError _ | OSError _
  | URLError _ | HTTPError _ _ | SMTPException _ => true
  | _ => false
  end.
Definition is_URLError (e : exn) : bool :=
  match e with URLError _ | HTTPError _ _ => true | _ => false end.
Definition is_SMTPException (e : exn) : bool :=
  match e with SMTPException _ => true | _ => false end.
Definition is_ftplib_error_perm (e : exn) : bool :=
  match e with ftplib_error_perm _ => true | _ => false end.
(** [ftplib.all_errors = (ftplib.Error, OSError, EOFError)] *)
Definition is_ftplib_all_errors (e : exn) : bool :=
  match e with
  | ftplib_error_perm _ | ftplib_Error _ | EOFError _ => true
  | _ => is_OSError e
  end.
Definition is_ValueError (e : exn) : bool :=
  match e with ValueError _ => true | _ => false end.

Inductive Result (A : Type) : Type :=
| Ok (a : A)
| Raise (e : exn).
Arguments Ok {A} a.
Arguments Raise {A} e.

Definition bind {A B} (c : Result A) (k : A -> Result B) : Result B :=
  match c with
  | Ok a => k a
  | Raise e => Raise e
  end.

(** [try: body  except ...: handler]; a handler that matches no clause
    re-raises. *)
Definition try_except {A} (body : Result A) (handler : exn -> Result A)
  : Result A :=
  match body with
  | Ok a => Ok a
  | Raise e => handler e
  end.

(** [with cm: body] where leaving the block runs [cm.__exit__], which
    may itself raise and then replaces the outcome of the body. *)
Definition with_exit {A} (exit : Result unit) (body : Result A) : Result A :=
  match exit with
  | Ok _ => body
  | Raise e => Raise e
  end.

Declare Scope result_scope.
Delimit Scope result_scope with result.
Notation "x <- c ;; k" := (bind c (fun x => k))
  (at level 100, c at next level, right associativity) : result_scope.
Local Open Scope result_scope.

(** The outcome of a check: [(up, message)]. *)
Abbreviation verdict := (bool * str)%type.

(* ===================================================================== *)
(** ** The environment: what the network and the libraries answer *)
(* ===================================================================== *)

(** A connected TCP socket: what the peer has sent (or the failure that
    reading produces). *)
Record socket := { sock_data : Result bytes }.

(** [s.recv(n)]: at most [n] bytes. *)
Definition recv (s : socket) (n : nat) : Result bytes :=
  d <- sock_data s ;; Ok (slice_to n d).

(** [urllib] response object. *)
Record http_response := { status : Z; body_data : Result bytes }.
Definition read (r : http_response) (n : nat) : Result bytes :=
  d <- body_data r ;; Ok (slice_to n d).

(** An [ftplib.FTP] session with one server. *)
Record ftp_session := {
  ftp_connect : Result str;      (* [ftp.connect]; the welcome line *)
  ftp_login : Result unit;       (* [ftp.login("anonymous", ...)] *)
  ftp_quit : Result unit;        (* the first [ftp.quit()] of the check *)
  ftp_quit_again : Result unit   (* a second [ftp.quit()], made by the
                                    handler after the first one raised *)
}.

(** An [smtplib.SMTP] session with one server.  [connect] and [ehlo]
    return the server's reply [(code, text)] whatever the code is; they
    raise only when no reply can be read.  Leaving the [with] block sends
    QUIT and raises when that is answered by a code other than 221. *)
Record smtp_session := {
  smtp_connect : Result (Z * bytes);
  smtp_ehlo : Result (Z * bytes);
  smtp_exit : Result unit
}.

Abbreviation ipv4 := (byte * byte * byte * byte)%type.

Record Env := {
  tcp_connect : str -> Z -> Result socket;   (* [socket.create_connection] *)
  urlopen : str -> Result http_response;     (* [urllib.request.urlopen] *)
  ftp : str -> Z -> ftp_session;
  smtp : str -> Z -> smtp_session;
  _HAS_DNSPYTHON : bool;
  (* [Resolver.resolve(query, "A")] with [nameservers = [host]] *)
  dns_resolve : str -> str -> Result (list ipv4);
  (* a UDP socket: [sendto(packet, (host, port))] then [recvfrom] *)
  udp_exchange : str -> Z -> bytes -> Result bytes
}.

(* ===================================================================== *)
(** ** checks.py *)
(* ===================================================================== *)

Module checks.

Definition TIMEOUT : Z := 10.

Section WithEnv.
Variable env : Env.

(** [_tcp_connect]: open the connection or raise. *)
Definition _tcp_connect (host : str) (port : Z) : Result socket :=
  tcp_connect env host port.

Definition check_tcp (host : str) (port : Z) : Result verdict :=
  try_except
    (_ <- _tcp_connect host port ;;
     Ok (true, lit "Port open"))
    (fun e =>
       if is_socket_timeout e then Ok (false, lit "Connection timed out")
       else if is_ConnectionRefusedError e then Ok (false, lit "Connection refused")
       else if is_OSError e then Ok (false, exn_str e)
       else Raise e).

Definition check_http (host : str) (port : Z) : Result verdict :=
  let url := lit "http://" ++ host ++ lit ":" ++ str_of_Z port ++ lit "/" in
  try_except
    (resp <- urlopen env url ;;
     body <- read resp 512 ;;
     if (status resp =? 200) && (0 <? length body)%nat
     then Ok (true, lit "HTTP 200 OK (" ++ str_of_N (N.of_nat (length body))
                    ++ lit "+ bytes)")
     else Ok (false, lit "HTTP " ++ str_of_Z (status resp)
                     ++ [32; 8212; 32]%N ++ lit "unexpected response"))
    (fun e =>
       match e with
       | HTTPError code reason =>
           Ok (false, lit "HTTP " ++ str_of_Z code ++ lit ": " ++ reason)
       | URLError reason => Ok (false, lit "URL error: " ++ reason)
       | _ => Ok (false, exn_str e)
       end).

Definition check_ftp (host : str) (port : Z) : Result verdict :=
  let session := ftp env host port in
  try_except
    (banner <- ftp_connect session ;;
     try_except
       (_ <- ftp_login session ;;
        _ <- ftp_quit session ;;
        Ok (true, lit "Anonymous login OK | " ++ slice_to 60 banner))
       (fun e =>
          if is_ftplib_error_perm e then
            (* the handler's quit is the second call exactly when the
               login went through and it was the first quit that raised *)
            _ <- match ftp_login session with
                 | Ok _ => ftp_quit_again session
                 | Raise _ => ftp_quit session
                 end ;;
            Ok (true, lit "Service UP (anonymous denied) | "
                      ++ slice_to 60 banner)
          else Raise e))
    (fun e =>
       if is_ftplib_all_errors e then Ok (false, lit "FTP error: " ++ exn_str e)
       else Ok (false, exn_str e)).

Definition check_smtp (host : str) (port : Z) : Result verdict :=
  let session := smtp env host port in
  try_except
    (with_exit (smtp_exit session)
       (reply <- smtp_connect session ;;
        let '(code, banner) := reply in
        if negb (code =? 220)
        then Ok (false, lit "Expected 220, got " ++ str_of_Z code)
        else
          _ <- smtp_ehlo session ;;
          Ok (true, lit "EHLO accepted | "
                    ++ slice_to 60 (decode_utf8_replace banner))))
    (fun e =>
       if is_SMTPException e then Ok (false, lit "SMTP error: " ++ exn_str e)
       else Ok (false, exn_str e)).

Definition check_banner (host : str) (port : Z) (expected : option str)
  : Result verdict :=
  try_except
    (s <- _tcp_connect host port ;;
     raw <- recv s 1024 ;;
     let banner := strip (decode_utf8_replace raw) in
     if truthy expected
        && negb (contains (default [] expected) banner)
     then Ok (false, lit "Banner missing '" ++ default [] expected
                     ++ lit "': " ++ slice_to 80 banner)
     else Ok (true, lit "Banner: " ++ slice_to 80 banner))
    (fun e =>
       if is_socket_timeout e then Ok (false, lit "Connection timed out")
       else if is_ConnectionRefusedError e then Ok (false, lit "Connection refused")
       else Ok (false, exn_str e)).

(** [data.index(b"\x00", start)]: offset of the first zero byte at or
    after [start]; [ValueError] when there is none. *)
Fixpoint find_zero (d : bytes) (i : nat) : option nat :=
  match d with
  | [] => None
  | b :: r => if Byte.eqb b x00 then Some i else find_zero r (S i)
  end.
Definition index_zero (data : bytes) (start : nat) : Result nat :=
  match find_zero (slice_from start data) start with
  | Some i => Ok i
  | None => Raise (ValueError (lit "subsection not found"))
  end.

(** [data[i]] for [i] within range, as an integer. *)
Definition byte_at (data : bytes) (i : nat) : N :=
  Byte.to_N (nth i data x00).

Definition check_mysql (host : str) (port : Z) : Result verdict :=
  try_except
    (s <- _tcp_connect host port ;;
     data <- recv s 256 ;;
     if (length data <? 5)%nat then Ok (false, lit "Incomplete handshake")
     else
       let proto := byte_at data 4 in
       if (proto =? 10)%N then
         try_except
           (null_idx <- index_zero data 5 ;;
            let version := decode_ascii_replace (slice 5 null_idx data) in
            Ok (true, lit "MySQL/MariaDB " ++ version))
           (fun e =>
              if is_ValueError e
              then Ok (true, lit "MySQL handshake OK (version unreadable)")
              else Raise e)
       else if (proto =? 255)%N then
         let err_msg := slice_to 60 (decode_utf8_replace (slice_from 7 data)) in
         Ok (false, lit "MySQL error: " ++ err_msg)
       else Ok (true, lit "DB port open (proto byte=0x" ++ hex02 proto ++ lit ")"))
    (fun e =>
       if is_socket_timeout e then Ok (false, lit "Connection timed out")
       else if is_ConnectionRefusedError e then Ok (false, lit "Connection refused")
       else Ok (false, exn_str e)).

(** [str(r)] for an A record: the dotted quad. *)
Definition ipv4_str (a : ipv4) : str :=
  let '(b1, b2, b3, b4) := a in
  str_of_N (Byte.to_N b1) ++ lit "." ++ str_of_N (Byte.to_N b2) ++ lit "."
  ++ str_of_N (Byte.to_N b3) ++ lit "." ++ str_of_N (Byte.to_N b4).

(** [str(ips)] for a list of dotted quads. *)
Definition list_repr (ips : list str) : str :=
  lit "[" ++ join (lit ", ") (List.map (fun s => lit "'" ++ s ++ lit "'") ips)
  ++ lit "]".

Definition _dns_dnspython (host query : str) (expected_ip : option str)
  : Result verdict :=
  try_except
    (answers <- dns_resolve env host query ;;
     let ips := List.map ipv4_str answers in
     if truthy expected_ip
        && negb (bool_decide (default [] expected_ip ∈ ips))
     then Ok (false, lit "Expected " ++ default [] expected_ip
                     ++ lit ", got " ++ list_repr ips)
     else Ok (true, lit "Resolved " ++ query ++ [32; 8594; 32]%N
                    ++ join (lit ", ") ips))
    (fun e => Ok (false, lit "DNS query failed: " ++ exn_str e)).

Definition byte_of_N (n : N) : byte := default x00 (Byte.of_N n).

(** UTF-8 encoding of one code point that is not a surrogate. *)
Definition encode_cp (c : N) : bytes :=
  List.map byte_of_N
    (if c <? 128 then [c]
     else if c <? 2048 then [192 + c / 64; 128 + c mod 64]
     else if c <? 65536
          then [224 + c / 4096; 128 + (c / 64) mod 64; 128 + c mod 64]
          else [240 + c / 262144; 128 + (c / 4096) mod 64;
                128 + (c / 64) mod 64; 128 + c mod 64])%N.

Definition is_surrogate (c : N) : bool := in_range 55296 57343 c.

Fixpoint surrogate_run (s : str) : nat :=
  match s with
  | c :: r => if is_surrogate c then S (surrogate_run r) else O
  | [] => O
  end.

(** [label.encode()]: UTF-8, [UnicodeEncodeError] (a [ValueError]) on a
    lone surrogate. *)
Fixpoint encode_from (pos : nat) (s : str) : Result bytes :=
  match s with
  | [] => Ok []
  | c :: r =>
    if is_surrogate c then
      Raise (ValueError
        (match surrogate_run r with
         | O => lit "'utf-8' codec can't encode character '\u" ++ hex04 c
                ++ lit "' in position " ++ str_of_N (N.of_nat pos)
         | S k => lit "'utf-8' codec can't encode characters in position "
                  ++ str_of_N (N.of_nat pos) ++ lit "-"
                  ++ str_of_N (N.of_nat (pos + S k))
         end ++ lit ": surrogates not allowed"))
    else
      rest <- encode_from (S pos) r ;;
      Ok (encode_cp c ++ rest)
  end.
Definition encode (s : str) : Result bytes := encode_from 0 s.

(** [bytes([n])] *)
Definition bytes_of_int (n : nat) : Result bytes :=
  if (n <? 256)%nat then Ok [byte_of_N (N.of_nat n)]
  else Raise (ValueError (lit "bytes must be in range(0, 256)")).

(** The loop that builds QNAME, started from [qname]. *)
Fixpoint encode_labels (labels : list str) (qname : bytes) : Result bytes :=
  match labels with
  | [] => Ok qname
  | label :: rest =>
    encoded <- encode label ;;
    len <- bytes_of_int (length encoded) ;;
    encode_labels rest (qname ++ len ++ encoded)
  end.

Definition dns_header : bytes :=
  [xab; xcd] ++ [x01; x00] ++ [x00; x01] ++ [x00; x00] ++ [x00; x00]
  ++ [x00; x00].

Definition dns_packet (query : str) : Result bytes :=
  qname <- encode_labels (split_dot query) [] ;;
  let qname := qname ++ [x00] in
  let qtype := [x00; x01] in
  let qclass := [x00; x01] in
  Ok (dns_header ++ qname ++ qtype ++ qclass).

Definition _dns_raw_udp (host query : str) (expected_ip : option str)
  : Result verdict :=
  try_except
    (packet <- dns_packet query ;;
     datagram <- udp_exchange env host 53 packet ;;
     let response := slice_to 512 datagram in
     if (length response <? 12)%nat then Ok (false, lit "Short DNS response")
     else
       let rcode := N.land (byte_at response 3) 15 in
       if (rcode =? 0)%N
       then Ok (true, lit "DNS query OK (NOERROR) for " ++ query)
       else Ok (false, lit "DNS RCODE " ++ str_of_N rcode ++ lit " for "
                       ++ query))
    (fun e =>
       if is_socket_timeout e then Ok (false, lit "DNS query timed out")
       else Ok (false, lit "DNS raw query error: " ++ exn_str e)).

Definition check_dns (host query : str) (expected_ip : option str)
  : Result verdict :=
  if _HAS_DNSPYTHON env then _dns_dnspython host query expected_ip
  else _dns_raw_udp host query expected_ip.

End WithEnv.

(** A service definition: one dictionary of [config.SERVICES].  The three
    optional keys are [None] when the dictionary lacks them. *)
Record service := {
  svc_id : str;
  name : str;
  machine : str;
  host : str;
  port : Z;
  points : Z;
  check_type : str;
  banner_expect : option str;
  dns_query : option str;
  dns_expected_ip : option str
}.


(** The check types the dispatcher knows. *)
Definition known_check_types : list str :=
  [lit "tcp"; lit "http"; lit "ftp"; lit "smtp"; lit "banner"; lit "mysql";
   lit "dns"].

Definition str_eq (a b : str) : bool := bool_decide (a = b).

Definition run_check (env : Env) (service : service) : Result verdict :=
  let ctype := check_type service in
  let host := host service in
  let port := port service in
  if str_eq ctype (lit "tcp") then check_tcp env host port
  else if str_eq ctype (lit "http") then check_http env host port
  else if str_eq ctype (lit "ftp") then check_ftp env host port
  else if str_eq ctype (lit "smtp") then check_smtp env host port
  else if str_eq ctype (lit "banner")
       then check_banner env host port (banner_expect service)
  else if str_eq ctype (lit "mysql") then check_mysql env host port
  else if str_eq ctype (lit "dns")
       then check_dns env host
              (default (lit "ludus.domain") (dns_query service))
              (dns_expected_ip service)
  else Ok (false, lit "Unknown check type: " ++ ctype).

End checks.

(* ===================================================================== *)
(** ** config.py *)
(* ===================================================================== *)

Module config.
Import checks.

Definition CHECK_INTERVAL : Z := 60.

Section Detect.
(** The builtin [int] applied to a string: the number, or the
    [ValueError] it raises. *)
Variable py_int : str -> Result Z.

(** [tokens[i]] *)
Definition index {A} (l : list A) (i : nat) : Result A :=
  match nth_error l i with
  | Some x => Ok x
  | None => Raise (Exception (lit "list index out of range"))
  end.

(** The body of [for line in result.stdout.splitlines()]: [Ok None] is
    [continue] or falling through to the next line, [Ok (Some n)] is
    [return n]. *)
Definition range_of_line (line : str) : Result (option Z) :=
  if negb (contains (lit "inet ") line) || contains (lit "127.0.0.1") line
  then Ok None
  else
    (token <- index (split_ws (strip line)) 1 ;;
     let ip := hd [] (split_on 47 token) in
     let parts := split_dot ip in
     if (length parts =? 4)%nat
        && checks.str_eq (nth 0 parts []) (lit "10")
        && checks.str_eq (nth 2 parts []) (lit "99")
     then (n <- py_int (nth 1 parts []) ;; Ok (Some n))
     else Ok None)%result.

Fixpoint first_range (lines : list str) : Result (option Z) :=
  match lines with
  | [] => Ok None
  | line :: rest =>
    (found <- range_of_line line ;;
     match found with
     | Some n => Ok (Some n)
     | None => first_range rest
     end)%result
  end.

(** [_detect_range_id]; [ip_addr_show] is what [subprocess.run] gives:
    the standard output of [ip addr show], or the exception raised. *)
Definition _detect_range_id (ip_addr_show : Result str) : Z :=
  match (stdout <- ip_addr_show ;; first_range (splitlines stdout))%result with
  | Ok (Some n) => n
  | Ok None => 10
  | Raise _ => 10
  end.

End Detect.

(** A field of a dotted address as [ip addr] prints it: no dot, no slash,
    no white space. *)
Definition plain (s : str) : Prop :=
  Forall (fun c => c <> 46%N /\ c <> 47%N /\ isspace c = false) s.

(** A line the scan passes over: no ["inet "] in it, or the loopback
    address, or an indented [inet A.…] line whose first address field [A]
    is not ["10"]. *)
Definition ignored (line : str) : Prop :=
  contains (lit "inet ") line = false
  \/ contains (lit "127.0.0.1") line = true
  \/ exists indent a rest,
       line = indent ++ lit "inet " ++ a ++ 46%N :: rest
       /\ Forall (fun c => isspace c = true) indent
       /\ plain a /\ a <> [] /\ a <> lit "10".

Section Range.
(** [RANGE_ID = _detect_range_id()]: read once from the host's network
    configuration when the module is loaded. *)
Variable RANGE_ID : Z.

Definition BASE_NET : str := lit "10." ++ str_of_Z RANGE_ID ++ lit ".10".

Definition _build_services : list service :=
  let n := BASE_NET in
  [ {| svc_id := lit "http"; name := lit "HTTP Web Server";
       machine := lit "WEB01"; host := n ++ lit ".31"; port := 80;
       points := 100; check_type := lit "http";
       banner_expect := None; dns_query := None; dns_expected_ip := None |};
    {| svc_id := lit "ftp"; name := lit "FTP Server";
       machine := lit "FTP01"; host := n ++ lit ".81"; port := 21;
       points := 50; check_type := lit "ftp";
       banner_expect := None; dns_query := None; dns_expected_ip := None |};
    {| svc_id := lit "smtp"; name := lit "SMTP (Mail)";
       machine := lit "MAIL01"; host := n ++ lit ".61"; port := 25;
       points := 75; check_type := lit "smtp";
       banner_expect := None; dns_query := None; dns_expected_ip := None |};
    {| svc_id := lit "imap"; name := lit "IMAP (Mail)";
       machine := lit "MAIL01"; host := n ++ lit ".61"; port := 143;
       points := 50; check_type := lit "banner";
       banner_expect := Some (lit "* OK");
       dns_query := None; dns_expected_ip := None |};
    {| svc_id := lit "pop3"; name := lit "POP3 (Mail)";
       machine := lit "MAIL01"; host := n ++ lit ".61"; port := 110;
       points := 50; check_type := lit "banner";
       banner_expect := Some (lit "+OK");
       dns_query := None; dns_expected_ip := None |};
    {| svc_id := lit "dns"; name := lit "DNS Server";
       machine := lit "DNS01"; host := n ++ lit ".71"; port := 53;
       points := 100; check_type := lit "dns";
       banner_expect := None;
       dns_query := Some (lit "web.ludus.domain");
       dns_expected_ip := Some (n ++ lit ".31") |};
    {| svc_id := lit "mysql"; name := lit "MySQL Database";
       machine := lit "DB01"; host := n ++ lit ".41"; port := 3306;
       points := 75; check_type := lit "mysql";
       banner_expect := None; dns_query := None; dns_expected_ip := None |};
    {| svc_id := lit "smb"; name := lit "SMB File Share";
       machine := lit "FILESVR"; host := n ++ lit ".51"; port := 445;
       points := 50; check_type := lit "tcp";
       banner_expect := None; dns_query := None; dns_expected_ip := None |};
    {| svc_id := lit "ldap"; name := lit "LDAP (Active Directory)";
       machine := lit "DC01"; host := n ++ lit ".11"; port := 389;
       points := 100; check_type := lit "tcp";
       banner_expect := None; dns_query := None; dns_expected_ip := None |};
    {| svc_id := lit "kerberos"; name := lit "Kerberos (Active Directory)";
       machine := lit "DC01"; host := n ++ lit ".11"; port := 88;
       points := 100; check_type := lit "tcp";
       banner_expect := None; dns_query := None; dns_expected_ip := None |} ].

Definition SERVICES : list service := _build_services.

End Range.

(** [sum(s["points"] for s in services)] *)
Definition sum_points (services : list service) : Z :=
  fold_left (fun acc s => acc + points s) services 0.

Definition MAX_SCORE_PER_ROUND (RANGE_ID : Z) : Z :=
  sum_points (SERVICES RANGE_ID).

End config.

(* ===================================================================== *)
(** ** database.py *)
(* ===================================================================== *)

Module database.

(** One dictionary of the [results] list built by a round. *)
Record result := {
  service_id : str;
  up : bool;
  points_earned : Z;
  message : str
}.

(** A row of [check_rounds]. *)
Record check_round := {
  id : Z;
  timestamp : str;
  round_score : Z;
  max_score : Z
}.

(** A row of [service_checks]. *)
Record service_check := {
  sc_id : Z;
  sc_round_id : Z;
  sc_service_id : str;
  sc_up : Z;
  sc_points_earned : Z;
  sc_message : str
}.

(** The two tables in insertion order, with the AUTOINCREMENT counters
    of [sqlite_sequence] (the largest row id handed out so far). *)
Record Database := {
  check_rounds : list check_round;
  service_checks : list service_check;
  seq_rounds : Z;
  seq_checks : Z
}.

(** [init_db] on a fresh file. *)
Definition init_db : Database :=
  {| check_rounds := []; service_checks := [];
     seq_rounds := 0; seq_checks := 0 |}.

(** The [executemany] of [save_round]: one row per result, ids counted
    up from [seq]. *)
Fixpoint insert_checks (round_id : Z) (seq : Z) (results : list result)
  : list service_check :=
  match results with
  | [] => []
  | r :: rest =>
    {| sc_id := seq + 1; sc_round_id := round_id;
       sc_service_id := service_id r;
       sc_up := if up r then 1 else 0;
       sc_points_earned := points_earned r;
       sc_message := message r |}
    :: insert_checks round_id (seq + 1) rest
  end.

(** [save_round] when the transaction commits; [ts] is the
    [datetime.now()] it reads. *)
Definition save_round (ts : str) (db : Database)
  (results : list result) (round_score max_score : Z) : Database :=
  let round_id := seq_rounds db + 1 in
  {| check_rounds :=
       check_rounds db
       ++ [ {| id := round_id; timestamp := ts;
               round_score := round_score; max_score := max_score |} ];
     service_checks :=
       service_checks db ++ insert_checks round_id (seq_checks db) results;
     seq_rounds := round_id;
     seq_checks := seq_checks db + Z.of_nat (length results) |}.

(** SQLite integers are signed 64-bit: [sqlite3] refuses to bind a Python
    integer outside this range, and [SUM] raises "integer overflow" when
    a running total leaves it. *)
Definition int64 (z : Z) : Prop := - 2 ^ 63 <= z < 2 ^ 63.

(** Values that [SUM] can add up in any order without leaving the 64-bit
    range: their absolute values together stay below 2^63. *)
Definition sums_fit (values : list Z) : Prop :=
  Zsum (List.map Z.abs values) < 2 ^ 63.

(** [SELECT COALESCE(SUM(round_score), 0) FROM check_rounds]: the value
    the query returns when it does not raise.  Whether the read raises is
    part of the environment ([read_raises] in [app]); on its own the
    function is the query only where [sums_fit] holds of the scores. *)
Definition get_cumulative_score (db : Database) : Z :=
  fold_left (fun acc r => acc + round_score r) (check_rounds db) 0.

Definition get_round_count (db : Database) : Z :=
  Z.of_nat (length (check_rounds db)).

(** [ORDER BY id DESC]: insertion sort on the row id, largest first. *)
Fixpoint insert_desc (r : check_round) (sorted : list check_round)
  : list check_round :=
  match sorted with
  | [] => [r]
  | x :: rest => if id x <=? id r then r :: sorted
                 else x :: insert_desc r rest
  end.
Definition order_by_id_desc (rows : list check_round) : list check_round :=
  fold_right insert_desc [] rows.

(** [LIMIT n] for a 64-bit [n]: a negative bound means no bound in
    SQLite.  A [limit] bound through a [?] must satisfy [int64], or
    [sqlite3] raises [OverflowError] before the query runs; the two query
    functions below are the queries for such limits only. *)
Definition sql_limit {A} (limit : Z) (rows : list A) : list A :=
  if limit <? 0 then rows else firstn (Z.to_nat limit) rows.

Definition get_recent_rounds (db : Database) (limit : Z) : list check_round :=
  sql_limit limit (order_by_id_desc (check_rounds db)).

(** The three selected columns of [get_score_history]. *)
Definition history_columns (r : check_round) : str * Z * Z :=
  (timestamp r, round_score r, max_score r).

Definition get_score_history (db : Database) (limit : Z)
  : list (str * Z * Z) :=
  rev (List.map history_columns
         (sql_limit limit (order_by_id_desc (check_rounds db)))).

(** One value of the dictionary [get_service_stats] returns: a row of
    the grouped query. *)
Record service_stats := {
  stats_service_id : str;
  total_checks : Z;
  up_count : Z;
  total_points : Z
}.

(** [GROUP BY service_id] with [COUNT( * )], [SUM(up)] and
    [SUM(points_earned)]: a row joins the group of its service id.  The
    sums are those SQLite returns when it does not raise "integer
    overflow", which [sums_fit] of the two columns guarantees. *)
Definition add_to_group (groups : gmap str service_stats)
  (row : service_check) : gmap str service_stats :=
  let sid := sc_service_id row in
  let g := default {| stats_service_id := sid; total_checks := 0;
                      up_count := 0; total_points := 0 |} (groups !! sid) in
  <[sid := {| stats_service_id := sid;
              total_checks := total_checks g + 1;
              up_count := up_count g + sc_up row;
              total_points := total_points g + sc_points_earned row |}]>
    groups.

Definition get_service_stats (db : Database) : gmap str service_stats :=
  fold_left add_to_group (service_checks db) ∅.

(** [{r["service_id"]: dict(r) for r in rows}] *)
Definition rows_by_service (rows : list service_check)
  : gmap str service_check :=
  fold_left (fun m r => <[sc_service_id r := r]> m) rows ∅.

(** [get_last_round_results]: the [service_checks] rows of the round with
    the largest id, keyed by service id; the empty dictionary when there
    is no round. *)
Definition get_last_round_results (db : Database)
  : gmap str service_check :=
  match sql_limit 1 (order_by_id_desc (check_rounds db)) with
  | [] => ∅
  | row :: _ =>
    let round_id := id row in
    rows_by_service
      (List.filter (fun r => sc_round_id r =? round_id) (service_checks db))
  end.

(** The rows of one service. *)
Definition rows_of (sid : str) (rows : list service_check)
  : list service_check :=
  List.filter (fun r => bool_decide (sc_service_id r = sid)) rows.

(** What [save_round] stores for one result. *)
Definition stored_as (r : result) (row : service_check) : Prop :=
  sc_service_id row = service_id r
  /\ sc_up row = (if up r then 1 else 0)
  /\ sc_points_earned row = points_earned r
  /\ sc_message row = message r.

(** What holds of a database that only [save_round] has written to: row
    ids count up from 1 in both tables, the counters equal the row counts,
    and every check row points at a round that has been handed out. *)
Definition well_formed (db : Database) : Prop :=
  List.map id (check_rounds db)
    = seqZ 1 (Z.of_nat (length (check_rounds db)))
  /\ seq_rounds db = Z.of_nat (length (check_rounds db))
  /\ List.map sc_id (service_checks db)
      = seqZ 1 (Z.of_nat (length (service_checks db)))
  /\ seq_checks db = Z.of_nat (length (service_checks db))
  /\ Forall (fun row => 1 <= sc_round_id row <= seq_rounds db)
        (service_checks db).

(** Rows in insertion order carry strictly increasing ids, none above the
    AUTOINCREMENT counter. *)
Definition ids_ascend (db : Database) : Prop :=
  StronglySorted (fun a b => id a < id b) (check_rounds db)
  /\ Forall (fun a => id a <= seq_rounds db) (check_rounds db).

(** The arguments of one committed [save_round] call. *)
Record saved := {
  saved_at : str;
  saved_results : list result;
  saved_score : Z;
  saved_max : Z
}.

(** The database after the given calls, oldest first, on a fresh file. *)
Definition db_after (calls : list saved) : Database :=
  fold_left
    (fun db c => save_round (saved_at c) db (saved_results c)
                   (saved_score c) (saved_max c))
    calls init_db.


End database.

(* ===================================================================== *)
(** ** app.py: shared state, one round, the scheduler loop *)
(* ===================================================================== *)

Module app.
Import checks.

(** [_state] *)
Record State := {
  last_check_time : option str;
  next_check_in : Z;
  current_results : gmap str database.result;
  round_score : Z;
  is_checking : bool
}.

Definition initial_state : State :=
  {| last_check_time := None; next_check_in := 0; current_results := ∅;
     round_score := 0; is_checking := false |}.

Definition set_is_checking (b : bool) (st : State) : State :=
  {| last_check_time := last_check_time st;
     next_check_in := next_check_in st;
     current_results := current_results st;
     round_score := round_score st;
     is_checking := b |}.

Definition set_next_check_in (n : Z) (st : State) : State :=
  {| last_check_time := last_check_time st;
     next_check_in := n;
     current_results := current_results st;
     round_score := round_score st;
     is_checking := is_checking st |}.

(** What the logger receives (the arguments of each call, not the
    formatted line). *)
Inductive log_record : Type :=
| info_check (up : bool) (name : str) (pts : Z) (message : str)
| info_round_complete (round_score max_score cumulative : Z)
| info_starting
| error_unhandled (exc : str).

(** Everything a round can change. *)
Record World := {
  state : State;
  db : database.Database;
  log : list log_record
}.

(** What one pass of the loop meets: the network, the clock readings of
    [save_round] and of the publishing block, and whether the database
    raises on the write or on the read that follows. *)
Record Round := {
  net : Env;
  save_now : str;
  save_raises : option exn;
  publish_now : str;
  read_raises : option exn
}.

(** The body of [for svc in config.SERVICES]. *)
Definition check_one (env : Env) (svc : service)
  : database.result * log_record :=
  let '(up, message) :=
    match run_check env svc with
    | Ok v => v
    | Raise exc => (false, lit "Check exception: " ++ exn_str exc)
    end in
  let pts := if up then points svc else 0 in
  ({| database.service_id := svc_id svc;
      database.up := up;
      database.points_earned := pts;
      database.message := message |},
   info_check up (name svc) pts (slice_to 70 message)).

(** The result dictionary the loop appends for one service. *)
Definition result_of (env : Env) (svc : service) : database.result :=
  fst (check_one env svc).

Definition round_acc : Type := list database.result * Z * list log_record.

Definition round_step (env : Env) (acc : round_acc) (svc : service)
  : round_acc :=
  let '(results, round_score, lg) := acc in
  let '(result, line) := check_one env svc in
  (results ++ [result], round_score + database.points_earned result,
   lg ++ [line]).

(** The whole [for] loop, from [results = []], [round_score = 0]. *)
Definition run_checks (env : Env) (services : list service) : round_acc :=
  fold_left (round_step env) services ([], 0, []).

(** [{r["service_id"]: r for r in results}] *)
Definition results_by_id (results : list database.result)
  : gmap str database.result :=
  fold_left (fun m r => <[database.service_id r := r]> m) results ∅.

(** [range(n, 0, -1)] *)
Fixpoint range_down (n : nat) : list Z :=
  match n with
  | O => []
  | S k => Z.of_nat n :: range_down k
  end.

Section Process.
Variable RANGE_ID : Z.

Definition _run_one_round (r : Round) (w : World) : Result unit * World :=
  let '(results, score, lines) := run_checks (net r) (config.SERVICES RANGE_ID) in
  let log1 := log w ++ lines in
  match save_raises r with
  | Some e => (Raise e, {| state := state w; db := db w; log := log1 |})
  | None =>
    let db1 := database.save_round (save_now r) (db w) results score
                 (config.MAX_SCORE_PER_ROUND RANGE_ID) in
    let st1 :=
      {| last_check_time := Some (publish_now r);
         next_check_in := next_check_in (state w);
         current_results := results_by_id results;
         round_score := score;
         is_checking := false |} in
    match read_raises r with
    | Some e => (Raise e, {| state := st1; db := db1; log := log1 |})
    | None =>
      (Ok tt,
       {| state := st1; db := db1;
          log := log1 ++ [info_round_complete score
                            (config.MAX_SCORE_PER_ROUND RANGE_ID)
                            (database.get_cumulative_score db1)] |})
    end
  end.

(** The countdown: [next_check_in] takes every value of the range in
    turn and ends at 0. *)
Definition countdown (st : State) : State :=
  set_next_check_in 0
    (fold_left (fun st remaining => set_next_check_in remaining st)
       (range_down (Z.to_nat config.CHECK_INTERVAL)) st).

(** One pass of [while True]. *)
Definition loop_body (r : Round) (w : World) : World :=
  let w0 := {| state := set_is_checking true (state w); db := db w;
               log := log w ++ [info_starting] |} in
  let w1 :=
    match _run_one_round r w0 with
    | (Ok _, w') => w'
    | (Raise exc, w') =>
      {| state := set_is_checking false (state w'); db := db w';
         log := log w' ++ [error_unhandled (exn_str exc)] |}
    end in
  {| state := countdown (state w1); db := db w1; log := log w1 |}.

(** [_scheduler_loop] run for as many passes as [rounds] has entries. *)
Fixpoint _scheduler_loop (rounds : list Round) (w : World) : World :=
  match rounds with
  | [] => w
  | r :: rest => _scheduler_loop rest (loop_body r w)
  end.

(** One value of ["services"] in the JSON of [/api/status]; [status_up]
    is [None] (JSON null) for a service with no result yet. *)
Record service_status := {
  status_name : str;
  status_up : option bool;
  status_points_earned : Z;
  status_message : str
}.

(** The JSON object of [/api/status]. *)
Record status_json := {
  json_last_check_time : option str;
  json_next_check_in : Z;
  json_is_checking : bool;
  json_round_score : Z;
  json_max_score_per_round : Z;
  json_cumulative_score : Z;
  json_round_count : Z;
  json_services : gmap str service_status
}.

(** The body of the loop over [config.SERVICES] in [api_status]:
    [last = results.get(sid, {})] and the three [last.get] calls. *)
Definition status_of (results : gmap str database.result) (svc : service)
  : service_status :=
  let last := results !! svc_id svc in
  {| status_name := name svc;
     status_up := database.up <$> last;
     status_points_earned := default 0 (database.points_earned <$> last);
     status_message := default [] (database.message <$> last) |}.

(** [api_status]; [read_raises] tells whether the database raises on the
    two reads. *)
Definition api_status (read_raises : option exn) (w : World)
  : Result status_json :=
  let state_snapshot := state w in
  let results := current_results (state w) in
  let services_out :=
    fold_left (fun out svc => <[svc_id svc := status_of results svc]> out)
      (config.SERVICES RANGE_ID) ∅ in
  match read_raises with
  | Some e => Raise e
  | None =>
    Ok {| json_last_check_time := last_check_time state_snapshot;
          json_next_check_in := next_check_in state_snapshot;
          json_is_checking := is_checking state_snapshot;
          json_round_score := round_score state_snapshot;
          json_max_score_per_round := config.MAX_SCORE_PER_ROUND RANGE_ID;
          json_cumulative_score := database.get_cumulative_score (db w);
          json_round_count := database.get_round_count (db w);
          json_services := services_out |}
  end.

End Process.

(** What a check row of a given service looks like: full points when up,
    none when down. *)
Definition row_scores (svc : service) (row : database.service_check) : Prop :=
  (database.sc_up row = 1 /\ database.sc_points_earned row = points svc)
  \/ (database.sc_up row = 0 /\ database.sc_points_earned row = 0).

(** Every configured service has one well-scored row per saved round. *)
Definition one_row_per_round (RANGE_ID : Z) (d : database.Database) : Prop :=
  Forall
    (fun svc =>
       let mine :=
         database.rows_of (svc_id svc) (database.service_checks d) in
       length mine = length (database.check_rounds d)
       /\ Forall (row_scores svc) mine)
    (config.SERVICES RANGE_ID).

(** The bounds the scheduler keeps between passes. *)
Definition settled (RANGE_ID : Z) (w : World) : Prop :=
  is_checking (state w) = false
  /\ next_check_in (state w) = 0
  /\ 0 <= round_score (state w) <= config.MAX_SCORE_PER_ROUND RANGE_ID
  /\ 0 <= database.get_cumulative_score (db w)
       <= config.MAX_SCORE_PER_ROUND RANGE_ID
          * database.get_round_count (db w)
  /\ Forall
       (fun row =>
          database.max_score row = config.MAX_SCORE_PER_ROUND RANGE_ID
          /\ 0 <= database.round_score row <= database.max_score row)
       (database.check_rounds (db w)).

(** How many of the given passes get their round written. *)
Definition saved_count (rounds : list Round) : nat :=
  length (List.filter (fun r => bool_decide (save_raises r = None)) rounds).

(** The process right after [database.init_db()] on a fresh file, before
    the scheduler thread has run. *)
Definition startup : World :=
  {| state := initial_state; db := database.init_db; log := [] |}.

End app.

(* ===================================================================== *)
(** ** Sample environments and inputs *)
(* ===================================================================== *)

Module samples.
Import checks.

Definition refused : exn := ConnectionRefusedError (lit "[Errno 111] Connection refused").

(** Nothing answers: every connection is refused. *)
Definition unreachable : Env :=
  {| tcp_connect := fun _ _ => Raise refused;
     urlopen := fun _ => Raise (URLError (lit "[Errno 111] Connection refused"));
     ftp := fun _ _ =>
       {| ftp_connect := Raise refused; ftp_login := Raise refused;
          ftp_quit := Raise refused; ftp_quit_again := Raise refused |};
     smtp := fun _ _ =>
       {| smtp_connect := Raise refused; smtp_ehlo := Raise refused;
          smtp_exit := Ok tt |};
     _HAS_DNSPYTHON := false;
     dns_resolve := fun _ _ => Raise (Exception (lit "The DNS operation timed out."));
     udp_exchange := fun _ _ _ => Raise (socket_timeout (lit "timed out")) |}.

Definition with_tcp (f : str -> Z -> Result socket) (env : Env) : Env :=
  {| tcp_connect := f; urlopen := urlopen env; ftp := ftp env;
     smtp := smtp env; _HAS_DNSPYTHON := _HAS_DNSPYTHON env;
     dns_resolve := dns_resolve env; udp_exchange := udp_exchange env |}.

Definition with_smtp (f : str -> Z -> smtp_session) (env : Env) : Env :=
  {| tcp_connect := tcp_connect env; urlopen := urlopen env; ftp := ftp env;
     smtp := f; _HAS_DNSPYTHON := _HAS_DNSPYTHON env;
     dns_resolve := dns_resolve env; udp_exchange := udp_exchange env |}.

Definition with_udp (f : str -> Z -> bytes -> Result bytes) (env : Env) : Env :=
  {| tcp_connect := tcp_connect env; urlopen := urlopen env; ftp := ftp env;
     smtp := smtp env; _HAS_DNSPYTHON := _HAS_DNSPYTHON env;
     dns_resolve := dns_resolve env; udp_exchange := f |}.

(** Every TCP peer sends [data] on connect. *)
Definition sends (data : bytes) : Env :=
  with_tcp (fun _ _ => Ok {| sock_data := Ok data |}) unreachable.

(** The bytes of an ASCII literal. *)
Definition ascii_bytes (s : string) : bytes := list_byte_of_string s.
Arguments ascii_bytes s%_string.

Definition target : str := lit "10.10.10.41".

(** A MySQL 5.7.0 greeting: 4 header bytes, protocol 10, version, NUL,
    then the rest of the handshake. *)
Definition mysql_greeting : bytes :=
  [x00; x00; x00; x00; x0a] ++ ascii_bytes "5.7.0" ++ [x00; x08; x00; x00; x00].

(** DNS replies: a 12-byte header whose fourth byte carries the RCODE. *)
Definition dns_noerror : bytes :=
  [xab; xcd; x81; x80; x00; x01; x00; x01; x00; x00; x00; x00].
Definition dns_nxdomain : bytes :=
  [xab; xcd; x81; x83; x00; x01; x00; x00; x00; x00; x00; x00].

(** The nameserver answers every datagram with [reply]. *)
Definition answers (reply : bytes) : Env :=
  with_udp (fun _ _ _ => Ok reply) unreachable.

(** A POP3 greeting whose status word is followed by a blank only. *)
Definition pop3_bare_ok : bytes := ascii_bytes "+OK " ++ [x0d; x0a].

(** A mail server that greets with 220 but does not know EHLO. *)
Definition smtp_without_ehlo : Env :=
  with_smtp
    (fun _ _ =>
       {| smtp_connect := Ok (220, ascii_bytes "mail.ludus.domain SMTP ready");
          smtp_ehlo := Ok (502, ascii_bytes "5.5.2 Error: command not recognized");
          smtp_exit := Ok tt |})
    unreachable.

(** A host name the resolver cannot even encode (an empty label): the
    socket library raises [UnicodeError], which is no [OSError]. *)
Definition bad_host_name : Env :=
  with_tcp
    (fun _ _ =>
       Raise (ValueError
                (lit "encoding with 'idna' codec failed (UnicodeError: label empty or too long)")))
    unreachable.

Definition smb : service :=
  {| svc_id := lit "smb"; name := lit "SMB File Share";
     machine := lit "FILESVR"; host := lit "10.10.10.51"; port := 445;
     points := 50; check_type := lit "tcp";
     banner_expect := None; dns_query := None; dns_expected_ip := None |}.

Definition ping : service :=
  {| svc_id := lit "ping"; name := lit "Gateway";
     machine := lit "GW"; host := lit "10.10.10.1"; port := 0;
     points := 10; check_type := lit "icmp";
     banner_expect := None; dns_query := None; dns_expected_ip := None |}.


(** A round in which every TCP port accepts and stays silent, and the
    database refuses the write. *)
Definition locked_round : app.Round :=
  {| app.net := sends [];
     app.save_now := lit "2025-01-01 12:00:00";
     app.save_raises := Some (Exception (lit "database is locked"));
     app.publish_now := lit "2025-01-01 12:00:00";
     app.read_raises := None |}.

(** A round in which every TCP port accepts and stays silent and the
    database works. *)
Definition quiet_round : app.Round :=
  {| app.net := sends [];
     app.save_now := lit "2025-01-01 12:00:00";
     app.save_raises := None;
     app.publish_now := lit "2025-01-01 12:00:01";
     app.read_raises := None |}.

Definition fresh_world : app.World :=
  {| app.state := app.initial_state; app.db := database.init_db;
     app.log := [] |}.

(** Only the listed hosts accept TCP connections. *)
Definition only_hosts (up : list str) : Env :=
  with_tcp
    (fun host _ => if bool_decide (host ∈ up)
                   then Ok {| sock_data := Ok [] |} else Raise refused)
    unreachable.

Definition tcp_service (ident address : str) (pts : Z) : service :=
  {| svc_id := ident; name := ident; machine := ident; host := address;
     port := 445; points := pts; check_type := lit "tcp";
     banner_expect := None; dns_query := None; dns_expected_ip := None |}.

(** Three services worth 100, 50 and 75 points. *)
Definition three_services : list service :=
  [tcp_service (lit "a") (lit "10.10.10.1") 100;
   tcp_service (lit "b") (lit "10.10.10.2") 50;
   tcp_service (lit "c") (lit "10.10.10.3") 75].

(** A web server that answers every request with [code] and [body]; a
    code other than 2xx reaches the caller as [HTTPError]. *)
Definition web (code : Z) (reason : str) (body : bytes) : Env :=
  {| tcp_connect := tcp_connect unreachable;
     urlopen := fun _ =>
       if (200 <=? code) && (code <? 300)
       then Ok {| status := code; body_data := Ok body |}
       else Raise (HTTPError code reason);
     ftp := ftp unreachable; smtp := smtp unreachable;
     _HAS_DNSPYTHON := false;
     dns_resolve := dns_resolve unreachable;
     udp_exchange := udp_exchange unreachable |}.

(** An FTP server that greets and refuses anonymous logins. *)
Definition ftp_no_anonymous : Env :=
  {| tcp_connect := tcp_connect unreachable; urlopen := urlopen unreachable;
     ftp := fun _ _ =>
       {| ftp_connect := Ok (lit "220 (vsFTPd 3.0.3)");
          ftp_login := Raise (ftplib_error_perm (lit "530 Login incorrect."));
          ftp_quit := Ok tt; ftp_quit_again := Ok tt |};
     smtp := smtp unreachable; _HAS_DNSPYTHON := false;
     dns_resolve := dns_resolve unreachable;
     udp_exchange := udp_exchange unreachable |}.

(** A name whose single label is 256 letters long. *)
Definition long_label : str := repeat 97%N 256.

(** One saved round with two results. *)
Definition two_results : list database.result :=
  [ {| database.service_id := lit "smtp"; database.up := true;
       database.points_earned := 75;
       database.message := lit "EHLO accepted | mail" |};
    {| database.service_id := lit "ftp"; database.up := false;
       database.points_earned := 0;
       database.message := lit "FTP error: timed out" |} ].

Definition one_save : database.saved :=
  {| database.saved_at := lit "2025-01-01 12:00:00";
     database.saved_results := two_results;
     database.saved_score := 75;
     database.saved_max := 125 |}.

(** [int] on strings of ASCII digits; anything else is refused here. *)
Definition ascii_int (s : str) : Result Z :=
  match s with
  | [] => Raise (ValueError (lit "invalid literal for int() with base 10: ''"))
  | _ =>
    if forallb (in_range 48 57) s
    then Ok (fold_left (fun acc c => 10 * acc + Z.of_N (c - 48)) s 0)
    else Raise (ValueError (lit "invalid literal for int() with base 10"))
  end.



Definition nameserver : str := lit "10.10.10.71".
Definition qname : str := lit "web.ludus.domain".

End samples.

(* ===================================================================== *)
(** ** Statements of the specification that the code does not satisfy *)
(* ===================================================================== *)

Module stated.
Import checks.

(** The banner check as worded: with an expected substring configured,
    up exactly when the substring occurs in the decoded banner. *)
Definition banner_up_iff_in_decoded : Prop :=
  forall (env : Env) (host : str) (port : Z) (s : socket) (raw : bytes)
         (expected : str) (v : verdict),
    _tcp_connect env host port = Ok s ->
    recv s 1024 = Ok raw ->
    expected <> [] ->
    check_banner env host port (Some expected) = Ok v ->
    (fst v = true <-> occurs_in expected (decode_utf8_replace raw)).

(** Persistence failure as worded: the round's snapshot is published
    all the same. *)
Definition snapshot_published_when_save_fails : Prop :=
  forall (RANGE_ID : Z) (r : app.Round) (w : app.World) (e : exn),
    app.save_raises r = Some e ->
    let '(results, score, _) :=
      app.run_checks (app.net r) (config.SERVICES RANGE_ID) in
    let w' := app.loop_body RANGE_ID r w in
    app.last_check_time (app.state w') = Some (app.publish_now r)
    /\ app.round_score (app.state w') = score
    /\ app.current_results (app.state w') = app.results_by_id results.

End stated.

(* ===================================================================== *)
(** * Properties *)
(* ===================================================================== *)

Import Py checks.
Local Open Scope result_scope.

(** ** Bytes and strings *)

Lemma to_N_inj (a b : byte) : Byte.to_N a = Byte.to_N b -> a = b.
Proof.
  intros H. pose proof (Byte.of_to_N a) as Ha.
  rewrite H, Byte.of_to_N in Ha. congruence.
Qed.

Lemma to_N_eqb (a b : byte) :
  (Byte.to_N a =? Byte.to_N b)%N = bool_decide (a = b).
Proof.
  case_bool_decide as E.
  - subst. apply N.eqb_refl.
  - apply N.eqb_neq. intros H. apply E, to_N_inj, H.
Qed.

Lemma byte_eqb_decide (a b : byte) : Byte.eqb a b = bool_decide (a = b).
Proof.
  case_bool_decide as E.
  - subst. apply Byte.byte_dec_lb. reflexivity.
  - destruct (Byte.eqb a b) eqn:H; [|reflexivity].
    apply Byte.byte_dec_bl in H. contradiction.
Qed.

Lemma find_zero_absent (d : bytes) (i : nat) :
  x00 ∉ d -> find_zero d i = None.
Proof.
  revert i. induction d as [|b d IH]; intros i H; cbn; [reflexivity|].
  rewrite byte_eqb_decide. case_bool_decide as E.
  - subst. exfalso. apply H. left.
  - apply IH. intros Hin. apply H. right. exact Hin.
Qed.

Lemma find_zero_first (ver rest : bytes) (i : nat) :
  x00 ∉ ver -> find_zero (ver ++ x00 :: rest) i = Some (i + length ver)%nat.
Proof.
  revert i. induction ver as [|b ver IH]; intros i H; cbn.
  - f_equal. lia.
  - rewrite byte_eqb_decide. case_bool_decide as E.
    + subst. exfalso. apply H. left.
    + rewrite IH.
      * f_equal. lia.
      * intros Hin. apply H. right. exact Hin.
Qed.

(** ** The MySQL handshake parser *)

Section Mysql.
Variables (env : Env) (host : str) (port : Z) (s : socket) (data : bytes).
Hypothesis connected : _tcp_connect env host port = Ok s.
Hypothesis received : recv s 256 = Ok data.

#[local] Opaque lit hex02.

Ltac mysql_enter :=
  unfold check_mysql; rewrite connected; cbn [bind];
  rewrite received; cbn [bind].

Ltac four_bytes h Hh :=
  destruct h as [|? [|? [|? [|? [|? ?]]]]]; try discriminate Hh.

Lemma mysql_short :
  (length data < 5)%nat ->
  check_mysql env host port = Ok (false, lit "Incomplete handshake").
Proof.
  intros H. mysql_enter.
  rewrite (proj2 (Nat.ltb_lt _ _) H). reflexivity.
Qed.

Lemma mysql_version (h : bytes) (ver rest : bytes) :
  length h = 4%nat -> data = h ++ x0a :: ver ++ x00 :: rest -> x00 ∉ ver ->
  check_mysql env host port
  = Ok (true, lit "MySQL/MariaDB " ++ decode_ascii_replace ver).
Proof.
  intros Hh Hd Hver. mysql_enter. four_bytes h Hh.
  subst data. simpl. unfold index_zero. simpl.
  rewrite find_zero_first by exact Hver. simpl.
  unfold slice. simpl. rewrite Nat.sub_0_r.
  change (drop 0 (ver ++ x00 :: rest)) with (ver ++ x00 :: rest).
  rewrite take_app_length. reflexivity.
Qed.

Lemma mysql_no_terminator (h payload : bytes) :
  length h = 4%nat -> data = h ++ x0a :: payload -> x00 ∉ payload ->
  check_mysql env host port
  = Ok (true, lit "MySQL handshake OK (version unreadable)").
Proof.
  intros Hh Hd Hp. mysql_enter. four_bytes h Hh.
  subst data. simpl. unfold index_zero. simpl.
  rewrite find_zero_absent by exact Hp. reflexivity.
Qed.

Lemma mysql_error_packet (h payload : bytes) :
  length h = 4%nat -> data = h ++ xff :: payload ->
  check_mysql env host port
  = Ok (false, lit "MySQL error: "
               ++ slice_to 60 (decode_utf8_replace (slice_from 7 data))).
Proof.
  intros Hh Hd. mysql_enter. four_bytes h Hh.
  subst data. reflexivity.
Qed.

Lemma mysql_other_proto (h payload : bytes) (proto : byte) :
  length h = 4%nat -> data = h ++ proto :: payload ->
  proto <> x0a -> proto <> xff ->
  check_mysql env host port
  = Ok (true, lit "DB port open (proto byte=0x" ++ hex02 (Byte.to_N proto)
              ++ lit ")").
Proof.
  intros Hh Hd Ha Hf. mysql_enter. four_bytes h Hh.
  subst data.
  match goal with
  | |- context [(length ?l <? 5)%nat] =>
      change (length l <? 5)%nat with false;
      change (byte_at l 4) with (Byte.to_N proto)
  end.
  cbn iota.
  change 10%N with (Byte.to_N x0a). change 255%N with (Byte.to_N xff).
  rewrite !to_N_eqb. rewrite !bool_decide_eq_false_2 by assumption.
  reflexivity.
Qed.

End Mysql.

(** C5. The MySQL handshake parser, for every byte string [data] that
    [recv(256)] returns: fewer than 5 bytes give (down, "Incomplete
    handshake"); with [proto] the byte at offset 4, [proto = 0x0a] gives up
    with the bytes from offset 5 up to the first NUL as the version (and
    up with the fallback text when no NUL follows); [proto = 0xff] gives
    down with the text from offset 7 (60 characters at most); any other
    [proto] gives up with the byte printed in hexadecimal. *)
Theorem check_mysql_handshake (env : Env) (host : str) (port : Z)
    (s : socket) (data : bytes) :
  _tcp_connect env host port = Ok s ->
  recv s 256 = Ok data ->
  ((length data < 5)%nat ->
     check_mysql env host port = Ok (false, lit "Incomplete handshake"))
  /\ (forall (h : bytes) (proto : byte) (payload : bytes),
        length h = 4%nat -> data = h ++ proto :: payload ->
        (proto = x0a ->
           (forall ver rest, payload = ver ++ x00 :: rest -> x00 ∉ ver ->
              check_mysql env host port
              = Ok (true, lit "MySQL/MariaDB " ++ decode_ascii_replace ver))
           /\ (x00 ∉ payload ->
                 check_mysql env host port
                 = Ok (true, lit "MySQL handshake OK (version unreadable)")))
        /\ (proto = xff ->
              check_mysql env host port
              = Ok (false, lit "MySQL error: "
                      ++ slice_to 60 (decode_utf8_replace (slice_from 2 payload))))
        /\ (proto <> x0a -> proto <> xff ->
              check_mysql env host port
              = Ok (true, lit "DB port open (proto byte=0x"
                      ++ hex02 (Byte.to_N proto) ++ lit ")"))).
Proof.
  intros Hc Hr. split; [apply (mysql_short env host port s data Hc Hr)|].
  intros h proto payload Hh Hd. repeat split.
  - intros ver rest -> Hver. subst proto.
    eapply mysql_version; eauto.
  - intros Hno. subst proto. eapply mysql_no_terminator; eauto.
  - intros ->. erewrite mysql_error_packet by eauto.
    subst data. destruct h as [|? [|? [|? [|? [|? ?]]]]]; try discriminate Hh.
    reflexivity.
  - intros Ha Hf. eapply mysql_other_proto; eauto.
Qed.

Lemma check_mysql_handshake_witness :
  _tcp_connect (samples.sends samples.mysql_greeting) samples.target 3306
    = Ok {| sock_data := Ok samples.mysql_greeting |}
  /\ recv {| sock_data := Ok samples.mysql_greeting |} 256
     = Ok samples.mysql_greeting
  /\ check_mysql (samples.sends samples.mysql_greeting) samples.target 3306
     = Ok (true, lit "MySQL/MariaDB 5.7.0").
Proof.
  split; [reflexivity|]. split; [reflexivity|].
  destruct (check_mysql_handshake (samples.sends samples.mysql_greeting)
              samples.target 3306 _ samples.mysql_greeting
              eq_refl eq_refl) as [_ H].
  destruct (H [x00; x00; x00; x00] x0a
              (samples.ascii_bytes "5.7.0" ++ [x00; x08; x00; x00; x00])
              eq_refl eq_refl) as [Hv _].
  destruct (Hv eq_refl) as [Hver _].
  apply (Hver (samples.ascii_bytes "5.7.0") [x08; x00; x00; x00] eq_refl).
  vm_compute. intros Hin.
  repeat (apply elem_of_cons in Hin; destruct Hin as [Hin|Hin];
          [discriminate Hin|]).
  apply elem_of_nil in Hin. exact Hin.
Defined.

(** ** The raw-UDP DNS fallback *)

Lemma land_15_mod_16 (n : N) : N.land n 15 = (n mod 16)%N.
Proof. change 15%N with (N.ones 4). apply N.land_ones. Qed.

Example dns_packet_sample :
  dns_packet samples.qname
  = Ok ([xab; xcd; x01; x00; x00; x01; x00; x00; x00; x00; x00; x00]
        ++ [x03] ++ samples.ascii_bytes "web"
        ++ [x05] ++ samples.ascii_bytes "ludus"
        ++ [x06] ++ samples.ascii_bytes "domain"
        ++ [x00] ++ [x00; x01] ++ [x00; x01]).
Proof. vm_compute. reflexivity. Qed.

Section DnsRaw.
Variables (env : Env) (host query : str) (expected_ip : option str).
Variables (packet datagram : bytes).
Hypothesis built : dns_packet query = Ok packet.
Hypothesis answered : udp_exchange env host 53 packet = Ok datagram.

#[local] Opaque lit.

Ltac dns_enter :=
  unfold _dns_raw_udp; rewrite built; cbn [bind];
  rewrite answered; cbn [bind].

Lemma dns_short :
  (length (slice_to 512 datagram) < 12)%nat ->
  _dns_raw_udp env host query expected_ip
  = Ok (false, lit "Short DNS response").
Proof.
  intros H. dns_enter. rewrite (proj2 (Nat.ltb_lt _ _) H). reflexivity.
Qed.

Lemma dns_rcode (h rest : bytes) (b3 : byte) :
  length h = 3%nat -> slice_to 512 datagram = h ++ b3 :: rest ->
  (12 <= length (slice_to 512 datagram))%nat ->
  _dns_raw_udp env host query expected_ip
  = if (Byte.to_N b3 mod 16 =? 0)%N
    then Ok (true, lit "DNS query OK (NOERROR) for " ++ query)
    else Ok (false, lit "DNS RCODE " ++ str_of_N (Byte.to_N b3 mod 16)
                    ++ lit " for " ++ query).
Proof.
  intros Hh Hd Hlen. dns_enter.
  rewrite (proj2 (Nat.ltb_ge _ _) Hlen). cbn iota.
  rewrite Hd. destruct h as [|? [|? [|? [|? ?]]]]; try discriminate Hh.
  change (byte_at ([b; b0; b1] ++ b3 :: rest) 3) with (Byte.to_N b3).
  rewrite land_15_mod_16.
  destruct (Byte.to_N b3 mod 16 =? 0)%N; reflexivity.
Qed.

Lemma dns_ignores_expected_ip (other_ip : option str) :
  _dns_raw_udp env host query other_ip
  = _dns_raw_udp env host query expected_ip.
Proof. reflexivity. Qed.

End DnsRaw.

(** C6. The raw-UDP fallback, for every datagram the nameserver returns
    (cut to 512 bytes by [recvfrom]): fewer than 12 bytes give (down,
    "Short DNS response"); otherwise the return code is the byte at offset
    3 modulo 16, code 0 gives up (NOERROR) and any other code gives down
    with the code printed; the expected address plays no part in the
    verdict. *)
Theorem dns_raw_udp_verdict (env : Env) (host query : str)
    (expected_ip : option str) (packet datagram : bytes) :
  dns_packet query = Ok packet ->
  udp_exchange env host 53 packet = Ok datagram ->
  let response := slice_to 512 datagram in
  ((length response < 12)%nat ->
     _dns_raw_udp env host query expected_ip
     = Ok (false, lit "Short DNS response"))
  /\ (forall (h : bytes) (b3 : byte) (rest : bytes),
        length h = 3%nat -> response = h ++ b3 :: rest ->
        (12 <= length response)%nat ->
        let rcode := (Byte.to_N b3 mod 16)%N in
        (rcode = 0%N ->
           _dns_raw_udp env host query expected_ip
           = Ok (true, lit "DNS query OK (NOERROR) for " ++ query))
        /\ (rcode <> 0%N ->
              _dns_raw_udp env host query expected_ip
              = Ok (false, lit "DNS RCODE " ++ str_of_N rcode
                           ++ lit " for " ++ query)))
  /\ (forall other_ip : option str,
        _dns_raw_udp env host query other_ip
        = _dns_raw_udp env host query expected_ip).
Proof.
  intros Hb Ha response. split; [|split].
  - intros H. eapply dns_short; eauto.
  - intros h b3 rest Hh Hd Hlen rcode.
    rewrite (dns_rcode env host query expected_ip packet datagram Hb Ha
               h rest b3 Hh Hd Hlen).
    fold rcode. split; intros H.
    + rewrite H. reflexivity.
    + apply N.eqb_neq in H. rewrite H. reflexivity.
  - intros other_ip. reflexivity.
Qed.

Lemma dns_raw_udp_verdict_witness :
  udp_exchange (samples.answers samples.dns_nxdomain) samples.nameserver 53
    (dns_header ++ ([x03] ++ samples.ascii_bytes "web"
        ++ [x05] ++ samples.ascii_bytes "ludus"
        ++ [x06] ++ samples.ascii_bytes "domain" ++ [x00])
       ++ [x00; x01] ++ [x00; x01])
  = Ok samples.dns_nxdomain
  /\ _dns_raw_udp (samples.answers samples.dns_nxdomain) samples.nameserver
       samples.qname (Some (lit "10.10.10.31"))
     = Ok (false, lit "DNS RCODE 3 for web.ludus.domain").
Proof.
  split; [reflexivity|].
  destruct (dns_raw_udp_verdict (samples.answers samples.dns_nxdomain)
              samples.nameserver samples.qname (Some (lit "10.10.10.31"))
              _ samples.dns_nxdomain dns_packet_sample eq_refl)
    as (_ & H & _).
  destruct (H [xab; xcd; x81] x83 [x00; x01; x00; x00; x00; x00; x00; x00]
              eq_refl eq_refl) as [_ Hdown].
  - vm_compute. apply le_n.
  - apply Hdown. vm_compute. discriminate.
Defined.

(** ** The banner check *)

Lemma startswith_spec (p s : str) :
  startswith p s = true <-> exists post, s = p ++ post.
Proof.
  revert s. induction p as [|a p IH]; intros s; simpl.
  - split; [intros _; exists s; reflexivity | reflexivity].
  - destruct s as [|b s].
    + split; [discriminate | intros [post H]; discriminate H].
    + rewrite andb_true_iff, N.eqb_eq, IH. split.
      * intros [-> [post ->]]. exists post. reflexivity.
      * intros [post H]. injection H as -> ->. split; [reflexivity | eauto].
Qed.

Lemma contains_spec (needle hay : str) :
  contains needle hay = true <-> occurs_in needle hay.
Proof.
  unfold occurs_in. induction hay as [|c hay IH].
  - simpl. rewrite orb_false_r, startswith_spec. split.
    + intros [post H]. exists [], post. exact H.
    + intros (pre & post & H). destruct pre; [|discriminate H].
      exists post. exact H.
  - cbn [contains]. rewrite orb_true_iff, startswith_spec, IH. split.
    + intros [[post H] | (pre & post & H)].
      * exists [], post. exact H.
      * exists (c :: pre), post. rewrite H. reflexivity.
    + intros (pre & post & H). destruct pre as [|c' pre].
      * left. exists post. exact H.
      * right. injection H as -> H. exists pre, post. exact H.
Qed.

Lemma contains_false (needle hay : str) :
  contains needle hay = false <-> ~ occurs_in needle hay.
Proof.
  rewrite <- contains_spec. destruct (contains needle hay).
  - split; [discriminate | intros H; exfalso; apply H; reflexivity].
  - split; [intros _ H; discriminate H | reflexivity].
Qed.

Lemma occurs_in_cons_space (e : str) (a c : N) (e' r : str) :
  e = a :: e' -> isspace a = false -> isspace c = true ->
  (occurs_in e (c :: r) <-> occurs_in e r).
Proof.
  intros -> Ha Hc. unfold occurs_in. split.
  - intros (pre & post & H). destruct pre as [|c' pre].
    + injection H as -> _. congruence.
    + injection H as _ H. eauto.
  - intros (pre & post & ->). exists (c :: pre), post. reflexivity.
Qed.

Lemma occurs_in_lstrip (e : str) (a : N) (e' s : str) :
  e = a :: e' -> isspace a = false ->
  (occurs_in e (lstrip s) <-> occurs_in e s).
Proof.
  intros He Ha. induction s as [|c r IH]; cbn [lstrip]; [reflexivity|].
  destruct (isspace c) eqn:Hc; [|reflexivity].
  rewrite IH. symmetry. eapply occurs_in_cons_space; eauto.
Qed.

Lemma occurs_in_rev (e s : str) :
  occurs_in e s <-> occurs_in (rev e) (rev s).
Proof.
  assert (forall e s, occurs_in e s -> occurs_in (rev e) (rev s)) as H.
  { intros e0 s0 (pre & post & ->). exists (rev post), (rev pre).
    rewrite !rev_app_distr, <- app_assoc. reflexivity. }
  split; [apply H|]. intros H'. apply H in H'.
  rewrite !rev_involutive in H'. exact H'.
Qed.

(** Stripping cannot remove an occurrence of a string that neither
    begins nor ends with white space, so for such expectations (the
    configured "* OK" and "+OK" among them) the stripped and the unstripped
    banner contain the same occurrences. *)
Lemma strip_keeps_occurrences (e : str) (a z : N) (e1 e2 s : str) :
  e = a :: e1 -> isspace a = false ->
  e = e2 ++ [z] -> isspace z = false ->
  (occurs_in e (strip s) <-> occurs_in e s).
Proof.
  intros Ha Hna Hz Hnz. unfold strip.
  rewrite occurs_in_rev, rev_involutive.
  assert (rev e = z :: rev e2) as Hrev.
  { rewrite Hz, rev_app_distr. reflexivity. }
  rewrite (occurs_in_lstrip (rev e) z (rev e2) _ Hrev Hnz).
  rewrite <- occurs_in_rev.
  apply (occurs_in_lstrip e a e1 s Ha Hna).
Qed.

Section Banner.
Variables (env : Env) (host : str) (port : Z) (s : socket) (raw : bytes).
Variable expected : str.
Hypothesis connected : _tcp_connect env host port = Ok s.
Hypothesis received : recv s 1024 = Ok raw.
Hypothesis configured : expected <> [].

#[local] Opaque lit.

Lemma banner_verdict :
  check_banner env host port (Some expected)
  = let banner := strip (decode_utf8_replace raw) in
    if contains expected banner
    then Ok (true, lit "Banner: " ++ slice_to 80 banner)
    else Ok (false, lit "Banner missing '" ++ expected ++ lit "': "
                    ++ slice_to 80 banner).
Proof.
  unfold check_banner. rewrite connected. cbn [bind].
  rewrite received. cbn [bind default].
  destruct expected as [|c e]; [contradiction|]. cbn [truthy andb].
  destruct (contains _ _); reflexivity.
Qed.

End Banner.

(** C7, as amended. With an expected substring configured, the banner
    check reports up exactly when the substring occurs in the banner after
    decoding (undecodable bytes replaced) and after stripping the white
    space around it; when it does not occur the verdict is down and the
    message names the missing substring.  For the expectation "+OK", the
    banner "+OK POP3 ready" is up and the banner "-ERR" is down. *)
Theorem check_banner_expected (env : Env) (host : str) (port : Z)
    (s : socket) (raw : bytes) (expected : str) :
  _tcp_connect env host port = Ok s ->
  recv s 1024 = Ok raw ->
  expected <> [] ->
  let banner := strip (decode_utf8_replace raw) in
  (occurs_in expected banner ->
     check_banner env host port (Some expected)
     = Ok (true, lit "Banner: " ++ slice_to 80 banner))
  /\ (~ occurs_in expected banner ->
        check_banner env host port (Some expected)
        = Ok (false, lit "Banner missing '" ++ expected ++ lit "': "
                     ++ slice_to 80 banner))
  /\ (expected = lit "+OK" ->
        (raw = samples.ascii_bytes "+OK POP3 ready" ->
           check_banner env host port (Some expected)
           = Ok (true, lit "Banner: +OK POP3 ready"))
        /\ (raw = samples.ascii_bytes "-ERR" ->
              check_banner env host port (Some expected)
              = Ok (false, lit "Banner missing '+OK': -ERR"))).
Proof.
  intros Hc Hr He banner.
  rewrite (banner_verdict env host port s raw expected Hc Hr He).
  fold banner. cbv zeta. split; [|split].
  - intros H. apply contains_spec in H. rewrite H. reflexivity.
  - intros H. apply contains_false in H. rewrite H. reflexivity.
  - intros ->. subst banner. split; intros ->; vm_compute; reflexivity.
Qed.

Lemma check_banner_expected_witness :
  _tcp_connect (samples.sends (samples.ascii_bytes "+OK POP3 ready"))
    samples.target 110
  = Ok {| sock_data := Ok (samples.ascii_bytes "+OK POP3 ready") |}
  /\ lit "+OK" <> []
  /\ check_banner (samples.sends (samples.ascii_bytes "+OK POP3 ready"))
       samples.target 110 (Some (lit "+OK"))
     = Ok (true, lit "Banner: +OK POP3 ready").
Proof.
  split; [reflexivity|]. split; [discriminate|].
  destruct (check_banner_expected
              (samples.sends (samples.ascii_bytes "+OK POP3 ready"))
              samples.target 110 _ (samples.ascii_bytes "+OK POP3 ready")
              (lit "+OK") eq_refl eq_refl) as (Hup & _ & _).
  - discriminate.
  - apply Hup. exists [], (lit " POP3 ready"). vm_compute. reflexivity.
Defined.

(** C7, as stated, fails: the greeting "+OK \r\n" contains "+OK " once
    decoded, but the check strips the banner first and reports down. *)
Lemma check_banner_unstripped_counterexample :
  ~ stated.banner_up_iff_in_decoded.
Proof.
  intros claim.
  pose proof (claim (samples.sends samples.pop3_bare_ok) samples.target 110
                _ samples.pop3_bare_ok (lit "+OK ")
                (false, lit "Banner missing '+OK ': +OK")
                eq_refl eq_refl) as H.
  destruct H as [_ H].
  - discriminate.
  - vm_compute. reflexivity.
  - assert (occurs_in (lit "+OK ") (decode_utf8_replace samples.pop3_bare_ok))
      as Hin.
    { exists [], (lit (String "013" (String "010" EmptyString))).
      vm_compute. reflexivity. }
    specialize (H Hin). discriminate H.
Qed.

(** ** The SMTP check *)

Section Smtp.
Variables (env : Env) (host : str) (port : Z).

#[local] Opaque lit.

(** The check itself never raises. *)
Lemma check_smtp_total : exists v, check_smtp env host port = Ok v.
Proof.
  unfold check_smtp, try_except, with_exit, bind.
  destruct (smtp_exit _) as [[]|e].
  - destruct (smtp_connect _) as [[code banner]|e].
    + destruct (negb (code =? 220)); [eauto|].
      destruct (smtp_ehlo _) as [?|e]; [eauto|].
      destruct (is_SMTPException e); eauto.
    + destruct (is_SMTPException e); eauto.
  - destruct (is_SMTPException e); eauto.
Qed.

(** A greeting code other than 220 gives down. *)
Lemma check_smtp_other_greeting (code : Z) (banner : bytes) :
  smtp_connect (smtp env host port) = Ok (code, banner) -> code <> 220 ->
  exists m, check_smtp env host port = Ok (false, m).
Proof.
  intros Hc Hne. unfold check_smtp, try_except, with_exit, bind.
  rewrite Hc. apply Z.eqb_neq in Hne. rewrite Hne. cbn [negb].
  destruct (smtp_exit _) as [[]|e]; [eauto|].
  destruct (is_SMTPException e); eauto.
Qed.

(** An exception from the greeting or from EHLO gives down. *)
Lemma check_smtp_error :
  (exists e, smtp_connect (smtp env host port) = Raise e)
  \/ (exists e, smtp_ehlo (smtp env host port) = Raise e) ->
  exists m, check_smtp env host port = Ok (false, m).
Proof.
  intros H. unfold check_smtp, try_except, with_exit, bind.
  destruct (smtp_exit _) as [[]|e'];
    [|destruct (is_SMTPException e'); eauto].
  destruct H as [[e H]|[e H]]; rewrite H.
  - destruct (is_SMTPException e); eauto.
  - destruct (smtp_connect _) as [[code banner]|e0].
    + destruct (negb (code =? 220)); [eauto|].
      destruct (is_SMTPException e); eauto.
    + destruct (is_SMTPException e0); eauto.
Qed.

(** What up means for this check: the session closed cleanly, the
    greeting code was 220 and the EHLO call returned a reply, whatever
    its code. *)
Lemma check_smtp_up_iff :
  (exists m, check_smtp env host port = Ok (true, m))
  <-> smtp_exit (smtp env host port) = Ok tt
      /\ (exists banner, smtp_connect (smtp env host port) = Ok (220, banner))
      /\ (exists reply, smtp_ehlo (smtp env host port) = Ok reply).
Proof.
  unfold check_smtp, try_except, with_exit, bind. split.
  - intros [m H].
    destruct (smtp_exit _) as [[]|e];
      [|destruct (is_SMTPException e); discriminate H].
    split; [reflexivity|].
    destruct (smtp_connect _) as [[code banner]|e];
      [|destruct (is_SMTPException e); discriminate H].
    destruct (Z.eqb_spec code 220) as [->|Hne]; [|discriminate H].
    split; [eauto|]. cbn [negb] in H.
    destruct (smtp_ehlo _) as [reply|e]; [eauto|].
    destruct (is_SMTPException e); discriminate H.
  - intros (-> & [banner ->] & [reply ->]). cbn. eauto.
Qed.

End Smtp.

(** C2, at the input where the code departs from it: the server greets
    with 220 and answers EHLO with 502 (command not recognised), and the
    check still reports up with the text "EHLO accepted". *)
Theorem check_smtp_up_when_ehlo_rejected :
  smtp_connect (smtp samples.smtp_without_ehlo samples.target 25)
  = Ok (220, samples.ascii_bytes "mail.ludus.domain SMTP ready")
  /\ smtp_ehlo (smtp samples.smtp_without_ehlo samples.target 25)
     = Ok (502, samples.ascii_bytes "5.5.2 Error: command not recognized")
  /\ check_smtp samples.smtp_without_ehlo samples.target 25
     = Ok (true, lit "EHLO accepted | mail.ludus.domain SMTP ready").
Proof. repeat split; vm_compute; reflexivity. Qed.

(** ** One round of checks *)

Import app.

Lemma round_step_eq (env : Env) (svc : service)
    (results : list database.result) (score : Z) (lines : list log_record) :
  round_step env (results, score, lines) svc
  = (results ++ [result_of env svc],
     score + database.points_earned (result_of env svc),
     lines ++ [snd (check_one env svc)]).
Proof.
  unfold round_step, result_of.
  destruct (check_one env svc) as [res line]. reflexivity.
Qed.

Lemma fold_round_step (env : Env) (services : list service)
    (results : list database.result) (score : Z) (lines : list log_record) :
  fold_left (round_step env) services (results, score, lines)
  = (results ++ List.map (result_of env) services,
     score + Zsum (List.map (fun s => database.points_earned (result_of env s))
                     services),
     lines ++ List.map (fun s => snd (check_one env s)) services).
Proof.
  revert results score lines.
  induction services as [|svc services IH]; intros results score lines.
  - cbn. rewrite !app_nil_r, Z.add_0_r. reflexivity.
  - cbn [fold_left List.map Zsum fold_right]. rewrite round_step_eq, IH.
    rewrite <- !app_assoc. cbn [app]. rewrite Z.add_assoc. reflexivity.
Qed.

(** The loop visits the services one by one: its three outputs are the
    per-service results, their total, and the per-service log lines. *)
Lemma run_checks_eq (env : Env) (services : list service) :
  run_checks env services
  = (List.map (result_of env) services,
     Zsum (List.map (fun s => database.points_earned (result_of env s))
             services),
     List.map (fun s => snd (check_one env s)) services).
Proof. unfold run_checks. rewrite fold_round_step. reflexivity. Qed.

Lemma result_of_id (env : Env) (svc : service) :
  database.service_id (result_of env svc) = svc_id svc.
Proof.
  unfold result_of, check_one.
  destruct (run_check env svc) as [[u m]|e]; reflexivity.
Qed.

Lemma result_of_points (env : Env) (svc : service) :
  database.points_earned (result_of env svc)
  = if database.up (result_of env svc) then points svc else 0.
Proof.
  unfold result_of, check_one.
  destruct (run_check env svc) as [[u m]|e]; reflexivity.
Qed.

Lemma result_of_verdict (env : Env) (svc : service) :
  match run_check env svc with
  | Ok (u, m) =>
      database.up (result_of env svc) = u
      /\ database.message (result_of env svc) = m
  | Raise e =>
      database.up (result_of env svc) = false
      /\ database.message (result_of env svc)
         = lit "Check exception: " ++ exn_str e
  end.
Proof.
  unfold result_of, check_one.
  destruct (run_check env svc) as [[u m]|e]; split; reflexivity.
Qed.

Lemma sum_points_fold (services : list service) (acc : Z) :
  fold_left (fun a s => a + points s) services acc
  = acc + Zsum (List.map points services).
Proof.
  unfold Zsum. revert acc.
  induction services as [|s services IH]; intros acc;
    cbn [fold_left List.map fold_right].
  - lia.
  - rewrite IH. lia.
Qed.

Lemma sum_points_eq (services : list service) :
  config.sum_points services = Zsum (List.map points services).
Proof. unfold config.sum_points. rewrite sum_points_fold. lia. Qed.

Lemma earned_bounds (env : Env) (services : list service) :
  Forall (fun s => 0 <= points s) services ->
  0 <= Zsum (List.map (fun s => database.points_earned (result_of env s))
               services)
    <= Zsum (List.map points services).
Proof.
  unfold Zsum.
  induction 1 as [|s services Hs _ IH]; cbn [List.map fold_right]; [lia|].
  rewrite result_of_points.
  destruct (database.up (result_of env s)); lia.
Qed.

Lemma configured_points_nonneg (RANGE_ID : Z) :
  Forall (fun s => 0 <= points s) (config.SERVICES RANGE_ID).
Proof. repeat constructor; discriminate. Qed.

Lemma max_score_value (RANGE_ID : Z) :
  config.MAX_SCORE_PER_ROUND RANGE_ID = 750.
Proof. reflexivity. Qed.

(** Three services worth 100, 50 and 75 points with the second one
    down: the round scores 175 out of 225. *)
Example three_services_round :
  let '(results, score, _) :=
    run_checks (samples.only_hosts [lit "10.10.10.1"; lit "10.10.10.3"])
      samples.three_services in
  score = 175
  /\ config.sum_points samples.three_services = 225
  /\ List.map database.up results = [true; false; true]
  /\ List.map database.points_earned results = [100; 0; 75].
Proof. vm_compute. repeat split. Qed.

Example http_200 :
  check_http (samples.web 200 (lit "OK") (samples.ascii_bytes "<html>"))
    samples.target 80
  = Ok (true, lit "HTTP 200 OK (6+ bytes)").
Proof. vm_compute. reflexivity. Qed.

Example http_503 :
  check_http (samples.web 503 (lit "Service Unavailable") [])
    samples.target 80
  = Ok (false, lit "HTTP 503: Service Unavailable").
Proof. vm_compute. reflexivity. Qed.

Lemma Forall2_map_self {A B} (P : A -> B -> Prop) (f : A -> B) (l : list A) :
  (forall x, P x (f x)) -> Forall2 P l (List.map f l).
Proof. intros H. induction l; cbn; constructor; auto. Qed.

(** C3. In every round the round score is the sum of the points earned
    by the per-service results; each result earns its service's configured
    points when up and 0 when down; the score lies between 0 and the
    maximum, which is the sum of the configured points (750, whatever the
    range id), and that same maximum and score are what a completed round
    writes to the log and publishes. *)
Theorem round_score_sum_and_bound (RANGE_ID : Z) (r : Round) (w : World) :
  let '(results, score, _) :=
    run_checks (net r) (config.SERVICES RANGE_ID) in
  score = Zsum (List.map database.points_earned results)
  /\ Forall2
       (fun svc res =>
          (database.up res = true
           /\ database.points_earned res = points svc)
          \/ (database.up res = false /\ database.points_earned res = 0))
       (config.SERVICES RANGE_ID) results
  /\ 0 <= score <= config.MAX_SCORE_PER_ROUND RANGE_ID
  /\ config.MAX_SCORE_PER_ROUND RANGE_ID
     = Zsum (List.map points (config.SERVICES RANGE_ID))
  /\ config.MAX_SCORE_PER_ROUND RANGE_ID = 750
  /\ match save_raises r with
     | Some _ => True
     | None =>
       let w' := snd (_run_one_round RANGE_ID r w) in
       round_score (state w') = score
       /\ database.check_rounds (db w')
          = database.check_rounds (db w)
            ++ [ {| database.id := database.seq_rounds (db w) + 1;
                    database.timestamp := save_now r;
                    database.round_score := score;
                    database.max_score := config.MAX_SCORE_PER_ROUND RANGE_ID |} ]
     end.
Proof.
  unfold _run_one_round. rewrite run_checks_eq.
  split; [|split; [|split; [|split; [|split]]]].
  - rewrite List.map_map. reflexivity.
  - apply Forall2_map_self. intros svc. rewrite result_of_points.
    destruct (database.up (result_of (net r) svc)); [left | right];
      split; reflexivity.
  - unfold config.MAX_SCORE_PER_ROUND. rewrite sum_points_eq.
    apply earned_bounds, configured_points_nonneg.
  - apply sum_points_eq.
  - reflexivity.
  - destruct (save_raises r); [exact I|].
    destruct (read_raises r); split; reflexivity.
Qed.

(** C4. In every round each configured service has exactly one entry in
    the result list, in configuration order; the entry carries the verdict
    and message of the service's check, and a down verdict with the text
    of the exception when the check raised; the list is as long as the
    configuration. *)
Theorem round_covers_every_service (RANGE_ID : Z) (env : Env) :
  let '(results, _, _) := run_checks env (config.SERVICES RANGE_ID) in
  List.map database.service_id results
  = List.map svc_id (config.SERVICES RANGE_ID)
  /\ NoDup (List.map database.service_id results)
  /\ length results = length (config.SERVICES RANGE_ID)
  /\ Forall2
       (fun svc res =>
          match run_check env svc with
          | Ok (u, m) => database.up res = u /\ database.message res = m
          | Raise e =>
              database.up res = false
              /\ database.message res = lit "Check exception: " ++ exn_str e
          end)
       (config.SERVICES RANGE_ID) results.
Proof.
  rewrite run_checks_eq.
  assert (List.map database.service_id
            (List.map (result_of env) (config.SERVICES RANGE_ID))
          = List.map svc_id (config.SERVICES RANGE_ID)) as Hids.
  { rewrite List.map_map. apply List.map_ext. apply result_of_id. }
  split; [exact Hids|]. split; [|split].
  - rewrite Hids. refine (bool_decide_unpack _ _). vm_compute. exact I.
  - apply List.length_map.
  - apply Forall2_map_self. intros svc. apply result_of_verdict.
Qed.

(** ** The dispatcher *)

Lemma run_check_unknown (env : Env) (svc : service) :
  ~ In (check_type svc) known_check_types ->
  run_check env svc
  = Ok (false, lit "Unknown check type: " ++ check_type svc).
Proof.
  intros H. unfold run_check, str_eq.
  repeat (rewrite bool_decide_eq_false_2;
          [|intros E; apply H; rewrite E; cbn; tauto]).
  reflexivity.
Qed.

Lemma check_one_raise (env : Env) (svc : service) (e : exn) :
  run_check env svc = Raise e ->
  result_of env svc
  = {| database.service_id := svc_id svc;
       database.up := false;
       database.points_earned := 0;
       database.message := lit "Check exception: " ++ exn_str e |}.
Proof. intros H. unfold result_of, check_one. rewrite H. reflexivity. Qed.

(** C8. A service whose check type is none of tcp, http, ftp, smtp,
    banner, mysql, dns gets a down verdict whose message names the type;
    an exception that escapes a check is turned by the round loop into a
    down result whose message starts with "Check exception:", and the
    services before and after it are checked as usual. *)
Theorem unknown_type_and_escaping_exception :
  (forall (env : Env) (svc : service),
     ~ In (check_type svc) known_check_types ->
     run_check env svc
     = Ok (false, lit "Unknown check type: " ++ check_type svc))
  /\ (forall (env : Env) (before after : list service) (svc : service)
             (e : exn),
        run_check env svc = Raise e ->
        let '(results, _, _) := run_checks env (before ++ svc :: after) in
        results
        = List.map (result_of env) before
          ++ {| database.service_id := svc_id svc;
                database.up := false;
                database.points_earned := 0;
                database.message := lit "Check exception: " ++ exn_str e |}
          :: List.map (result_of env) after).
Proof.
  split.
  - apply run_check_unknown.
  - intros env before after svc e H. rewrite run_checks_eq.
    rewrite List.map_app. cbn [List.map].
    rewrite (check_one_raise env svc e H). reflexivity.
Qed.

Lemma unknown_type_and_escaping_exception_witness :
  (~ In (check_type samples.ping) known_check_types
   /\ run_check samples.unreachable samples.ping
      = Ok (false, lit "Unknown check type: icmp"))
  /\ (run_check samples.bad_host_name samples.smb
      = Raise (ValueError
                 (lit "encoding with 'idna' codec failed (UnicodeError: label empty or too long)"))
      /\ let '(results, _, _) :=
           run_checks samples.bad_host_name
             ([samples.ping] ++ samples.smb :: [samples.ping]) in
         List.map database.up results = [false; false; false]
         /\ List.map database.message results
            = [lit "Unknown check type: icmp";
               lit "Check exception: encoding with 'idna' codec failed (UnicodeError: label empty or too long)";
               lit "Unknown check type: icmp"]).
Proof.
  assert (~ In (check_type samples.ping) known_check_types) as Hping.
  { cbn. intros H. repeat (destruct H as [H|H]; [discriminate H|]). exact H. }
  destruct unknown_type_and_escaping_exception as [Hunknown Hraise].
  split; [split; [exact Hping|]|split; [reflexivity|]].
  - apply (Hunknown samples.unreachable samples.ping Hping).
  - pose proof (Hraise samples.bad_host_name [samples.ping] [samples.ping]
                  samples.smb _ eq_refl) as H.
    destruct (run_checks samples.bad_host_name
                ([samples.ping] ++ samples.smb :: [samples.ping]))
      as [[results score] lines].
    rewrite H. split; vm_compute; reflexivity.
Defined.



(** ** The scheduler loop and a failing write *)

Lemma countdown_fold_keeps (l : list Z) (st : State) :
  let st' := fold_left (fun st remaining => set_next_check_in remaining st) l st in
  last_check_time st' = last_check_time st
  /\ round_score st' = round_score st
  /\ current_results st' = current_results st
  /\ is_checking st' = is_checking st.
Proof.
  revert st. induction l as [|n l IH]; intros st; cbn [fold_left].
  - repeat split.
  - destruct (IH (set_next_check_in n st)) as (H1 & H2 & H3 & H4).
    cbv zeta. rewrite H1, H2, H3, H4. repeat split.
Qed.

Lemma countdown_keeps (st : State) :
  last_check_time (countdown st) = last_check_time st
  /\ round_score (countdown st) = round_score st
  /\ current_results (countdown st) = current_results st
  /\ is_checking (countdown st) = is_checking st
  /\ next_check_in (countdown st) = 0.
Proof.
  unfold countdown.
  destruct (countdown_fold_keeps
              (range_down (Z.to_nat config.CHECK_INTERVAL)) st)
    as (H1 & H2 & H3 & H4).
  cbn [set_next_check_in last_check_time round_score current_results
       is_checking next_check_in].
  auto.
Qed.

Lemma loop_body_when_save_raises
    (RANGE_ID : Z) (r : Round) (w : World) (e : exn) :
  save_raises r = Some e ->
  let w' := loop_body RANGE_ID r w in
  last_check_time (state w') = last_check_time (state w)
  /\ round_score (state w') = round_score (state w)
  /\ current_results (state w') = current_results (state w)
  /\ is_checking (state w') = false
  /\ next_check_in (state w') = 0
  /\ db w' = db w
  /\ last (log w') = Some (error_unhandled (exn_str e)).
Proof.
  intros Hsave w'. subst w'. unfold loop_body, _run_one_round.
  destruct (run_checks (net r) (config.SERVICES RANGE_ID))
    as [[results score] lines] eqn:Hrun.
  cbn [state db log]. rewrite Hsave. cbn [state db log].
  match goal with
  | |- context [countdown ?st] =>
      destruct (countdown_keeps st) as (H1 & H2 & H3 & H4 & H5)
  end.
  rewrite H1, H2, H3, H4, H5.
  repeat split. apply last_snoc.
Qed.

(** C1, as amended. When [save_round] raises, the exception leaves
    [_run_one_round] before the snapshot is published: last check time,
    round score and per-service results keep the values they had; nothing
    is written to the database; the scheduler loop logs the error, clears
    the in-progress flag, runs the countdown and goes on with the next
    round. *)
Theorem save_failure_skips_publish_and_loop_continues
    (RANGE_ID : Z) (r : Round) (w : World) (e : exn) :
  save_raises r = Some e ->
  let w' := loop_body RANGE_ID r w in
  last_check_time (state w') = last_check_time (state w)
  /\ round_score (state w') = round_score (state w)
  /\ current_results (state w') = current_results (state w)
  /\ is_checking (state w') = false
  /\ next_check_in (state w') = 0
  /\ db w' = db w
  /\ last (log w') = Some (error_unhandled (exn_str e))
  /\ (forall rest : list Round,
        _scheduler_loop RANGE_ID (r :: rest) w
        = _scheduler_loop RANGE_ID rest w').
Proof.
  intros Hsave w'.
  destruct (loop_body_when_save_raises RANGE_ID r w e Hsave)
    as (H1 & H2 & H3 & H4 & H5 & H6 & H7).
  repeat split; try assumption.
Qed.

Lemma save_failure_skips_publish_and_loop_continues_witness :
  save_raises samples.locked_round
  = Some (Exception (lit "database is locked"))
  /\ round_score
       (state (loop_body 10 samples.locked_round samples.fresh_world)) = 0
  /\ last (log (loop_body 10 samples.locked_round samples.fresh_world))
     = Some (error_unhandled (lit "database is locked")).
Proof.
  split; [reflexivity|].
  destruct (save_failure_skips_publish_and_loop_continues 10
              samples.locked_round samples.fresh_world _ eq_refl)
    as (_ & Hscore & _ & _ & _ & _ & Hlog & _).
  split; [exact Hscore | exact Hlog].
Defined.

(** C1, as stated, fails: in a round that earned 250 points and whose
    write was refused, the shared state still shows no check time. *)
Lemma save_failure_counterexample :
  ~ stated.snapshot_published_when_save_fails.
Proof.
  intros claim.
  pose proof (claim 10 samples.locked_round samples.fresh_world _ eq_refl)
    as H.
  destruct (run_checks (net samples.locked_round) (config.SERVICES 10))
    as [[results score] lines].
  destruct H as [H _].
  destruct (loop_body_when_save_raises 10
              samples.locked_round samples.fresh_world _ eq_refl)
    as (Htime & _).
  rewrite Htime in H. discriminate H.
Qed.

Example locked_round_score :
  snd (fst (run_checks (net samples.locked_round) (config.SERVICES 10))) = 250.
Proof. vm_compute. reflexivity. Qed.

(** ** The result log *)

Section ResultLog.
Import database.

Lemma ids_ascend_init : ids_ascend init_db.
Proof. split; constructor. Qed.

Lemma StronglySorted_snoc {A} (R : A -> A -> Prop) (l : list A) (x : A) :
  StronglySorted R l -> Forall (fun a => R a x) l ->
  StronglySorted R (l ++ [x]).
Proof.
  induction 1 as [|a l Hs IH Ha]; intros Hx; cbn.
  - constructor; constructor.
  - inversion Hx as [|? ? Hax Hlx]; subst. constructor.
    + apply IH, Hlx.
    + apply Forall_app. split; [exact Ha | constructor; [exact Hax | constructor]].
Qed.

Lemma ids_ascend_save (ts : str) (db : Database) (results : list result)
    (score top : Z) :
  ids_ascend db -> ids_ascend (save_round ts db results score top).
Proof.
  intros [Hs Hb]. unfold ids_ascend, save_round. cbn [check_rounds seq_rounds].
  split.
  - apply StronglySorted_snoc; [exact Hs|].
    eapply List.Forall_impl; [|exact Hb]. cbn. intros a Ha. lia.
  - apply Forall_app. split.
    + eapply List.Forall_impl; [|exact Hb]. cbn. intros a Ha. lia.
    + constructor; [cbn; lia | constructor].
Qed.

Lemma fold_save_ascend (calls : list saved) (db : Database) :
  ids_ascend db ->
  ids_ascend
    (fold_left
       (fun db c => save_round (saved_at c) db (saved_results c)
                      (saved_score c) (saved_max c))
       calls db).
Proof.
  revert db. induction calls as [|c calls IH]; intros db H; cbn [fold_left].
  - exact H.
  - apply IH, ids_ascend_save, H.
Qed.

Lemma db_after_ascend (calls : list saved) : ids_ascend (db_after calls).
Proof. apply fold_save_ascend, ids_ascend_init. Qed.


Lemma insert_desc_smallest (r : check_round) (l : list check_round) :
  Forall (fun x => id r < id x) l -> insert_desc r l = l ++ [r].
Proof.
  induction 1 as [|x l Hx _ IH]; cbn; [reflexivity|].
  destruct (Z.leb_spec (id x) (id r)); [lia|]. rewrite IH. reflexivity.
Qed.

(** On rows with ascending ids, [ORDER BY id DESC] is the reversal. *)
Lemma order_by_id_desc_rev (rows : list check_round) :
  StronglySorted (fun a b => id a < id b) rows ->
  order_by_id_desc rows = rev rows.
Proof.
  induction 1 as [|r rows Hs IH Hr]; cbn; [reflexivity|].
  unfold order_by_id_desc in IH. rewrite IH.
  apply insert_desc_smallest.
  apply List.Forall_forall. intros x Hx. apply in_rev in Hx.
  rewrite List.Forall_forall in Hr. apply Hr, Hx.
Qed.


End ResultLog.



(* ===================================================================== *)
(** * Further properties of the checks *)
(* ===================================================================== *)

Section Never_raise.
Variable env : Env.

(** Every check but [check_tcp] ends in a catch-all handler. *)
Lemma check_http_total (host : str) (port : Z) :
  exists v, check_http env host port = Ok v.
Proof.
  unfold check_http, try_except, bind, read.
  destruct (urlopen env _) as [resp|e]; [|destruct e; eauto].
  destruct (body_data resp) as [body|e]; [|destruct e; eauto].
  cbn. destruct (_ && _); eauto.
Qed.

Lemma check_ftp_total (host : str) (port : Z) :
  exists v, check_ftp env host port = Ok v.
Proof.
  unfold check_ftp, try_except, bind.
  repeat match goal with
         | |- context [match ?x with _ => _ end] => destruct x
         end; eauto.
Qed.

Lemma check_banner_total (host : str) (port : Z) (expected : option str) :
  exists v, check_banner env host port expected = Ok v.
Proof.
  unfold check_banner, try_except, bind, _tcp_connect, recv.
  repeat match goal with
         | |- context [match ?x with _ => _ end] => destruct x
         end; eauto.
Qed.

Lemma index_zero_raises (data : bytes) (start : nat) (e : exn) :
  index_zero data start = Raise e -> is_ValueError e = true.
Proof.
  unfold index_zero. destruct (find_zero _ _); [discriminate|].
  intros H. injection H as <-. reflexivity.
Qed.

Lemma check_mysql_total (host : str) (port : Z) :
  exists v, check_mysql env host port = Ok v.
Proof.
  unfold check_mysql, try_except, bind, _tcp_connect, recv.
  repeat match goal with
         | |- context [match ?x with _ => _ end] => destruct x eqn:?
         end; eauto.
Qed.

Lemma check_dns_total (host query : str) (expected_ip : option str) :
  exists v, check_dns env host query expected_ip = Ok v.
Proof.
  unfold check_dns, _dns_dnspython, _dns_raw_udp, try_except, bind.
  repeat match goal with
         | |- context [match ?x with _ => _ end] => destruct x
         end; eauto.
Qed.

End Never_raise.

(** X1. The dispatcher lets an exception through in one case only: the
    service is of type tcp and opening the connection raised something
    that is not an [OSError]; that same exception is what escapes. *)
Theorem run_check_raises_only_from_tcp (env : Env) (svc : service) (e : exn) :
  run_check env svc = Raise e ->
  check_type svc = lit "tcp"
  /\ tcp_connect env (host svc) (port svc) = Raise e
  /\ is_OSError e = false.
Proof.
  unfold run_check, str_eq.
  case_bool_decide as Htcp.
  - intros H. split; [exact Htcp|].
    unfold check_tcp, try_except, bind, _tcp_connect in H.
    destruct (tcp_connect env (host svc) (port svc)) as [s|e0];
      [discriminate H|].
    destruct (is_socket_timeout e0); [discriminate H|].
    destruct (is_ConnectionRefusedError e0); [discriminate H|].
    destruct (is_OSError e0) eqn:Hos; [discriminate H|].
    injection H as <-. split; [reflexivity | exact Hos].
  - case_bool_decide.
    { destruct (check_http_total env (host svc) (port svc)) as [v ->].
      discriminate. }
    case_bool_decide.
    { destruct (check_ftp_total env (host svc) (port svc)) as [v ->].
      discriminate. }
    case_bool_decide.
    { destruct (check_smtp_total env (host svc) (port svc)) as [v ->].
      discriminate. }
    case_bool_decide.
    { destruct (check_banner_total env (host svc) (port svc)
                  (banner_expect svc)) as [v ->].
      discriminate. }
    case_bool_decide.
    { destruct (check_mysql_total env (host svc) (port svc)) as [v ->].
      discriminate. }
    case_bool_decide; [|discriminate].
    destruct (check_dns_total env (host svc)
                (default (lit "ludus.domain") (dns_query svc))
                (dns_expected_ip svc)) as [v ->].
    discriminate.
Qed.

Lemma run_check_raises_only_from_tcp_witness :
  run_check samples.bad_host_name samples.smb
  = Raise (ValueError
             (lit "encoding with 'idna' codec failed (UnicodeError: label empty or too long)"))
  /\ check_type samples.smb = lit "tcp".
Proof.
  split; [reflexivity|].
  apply (run_check_raises_only_from_tcp samples.bad_host_name samples.smb _
           eq_refl).
Defined.

(** X2. The HTTP check reports up exactly when the request to
    [http://host:port/] is answered with status 200 and the body is not
    empty; the message then counts the bytes read, 512 at most. *)
Theorem check_http_up_iff (env : Env) (host : str) (port : Z) (m : str) :
  check_http env host port = Ok (true, m)
  <-> exists resp body,
        urlopen env (lit "http://" ++ host ++ lit ":" ++ str_of_Z port
                     ++ lit "/") = Ok resp
        /\ status resp = 200
        /\ body_data resp = Ok body
        /\ body <> []
        /\ m = lit "HTTP 200 OK ("
               ++ str_of_N (N.of_nat (Nat.min 512 (length body)))
               ++ lit "+ bytes)".
Proof.
  unfold check_http, try_except, bind, read, slice_to. split.
  - destruct (urlopen env _) as [resp|e]; [|destruct e; discriminate].
    destruct (body_data resp) as [body|e] eqn:Hbody;
      [|destruct e; discriminate].
    cbn [bind]. destruct (Z.eqb_spec (status resp) 200) as [Hs|Hs];
      [|discriminate].
    destruct (Nat.ltb_spec 0 (length (firstn 512 body))) as [Hl|Hl];
      [|discriminate].
    cbn [andb]. intros H. injection H as <-.
    exists resp, body.
    split; [reflexivity|]. split; [exact Hs|]. split; [exact Hbody|].
    split.
    + intros Hb. subst body. cbn in Hl. lia.
    + rewrite length_firstn. reflexivity.
  - intros (resp & body & -> & Hs & -> & Hb & ->). cbn [bind].
    rewrite Hs. cbn [Z.eqb Pos.eqb andb].
    assert (0 < length (firstn 512 body))%nat as Hl.
    { destruct body; [contradiction|]. cbn. lia. }
    apply Nat.ltb_lt in Hl. rewrite Hl, length_firstn. reflexivity.
Qed.

(** X3. The FTP check: once the server has greeted, an anonymous login
    that succeeds and a login that is refused with a permission error both
    give up (with the first 60 characters of the greeting), provided QUIT
    goes through; a login that fails in any other way, or a failed
    connection, gives down. *)
Theorem check_ftp_verdicts (env : Env) (host : str) (port : Z) :
  (forall banner,
     ftp_connect (ftp env host port) = Ok banner ->
     ftp_quit (ftp env host port) = Ok tt ->
     (ftp_login (ftp env host port) = Ok tt ->
        check_ftp env host port
        = Ok (true, lit "Anonymous login OK | " ++ slice_to 60 banner))
     /\ (forall e, ftp_login (ftp env host port) = Raise e ->
           is_ftplib_error_perm e = true ->
           check_ftp env host port
           = Ok (true, lit "Service UP (anonymous denied) | "
                       ++ slice_to 60 banner)))
  /\ (forall banner e,
        ftp_connect (ftp env host port) = Ok banner ->
        ftp_login (ftp env host port) = Raise e ->
        is_ftplib_error_perm e = false ->
        exists m, check_ftp env host port = Ok (false, m))
  /\ (forall e,
        ftp_connect (ftp env host port) = Raise e ->
        exists m, check_ftp env host port = Ok (false, m)).
Proof.
  unfold check_ftp, try_except, bind. split; [|split].
  - intros banner -> Hq. split.
    + intros ->. rewrite Hq. reflexivity.
    + intros e -> ->. rewrite Hq. reflexivity.
  - intros banner e -> -> ->. destruct (is_ftplib_all_errors e); eauto.
  - intros e ->. destruct (is_ftplib_all_errors e); eauto.
Qed.

(** X4. With no expected substring configured ([None] or the empty
    string) the banner check reports up for whatever the peer sent, an
    empty read included, and shows the first 80 characters of the
    stripped banner. *)
Theorem check_banner_without_expectation (env : Env) (host : str) (port : Z)
    (s : socket) (raw : bytes) (expected : option str) :
  _tcp_connect env host port = Ok s ->
  recv s 1024 = Ok raw ->
  expected = None \/ expected = Some [] ->
  check_banner env host port expected
  = Ok (true, lit "Banner: " ++ slice_to 80 (strip (decode_utf8_replace raw))).
Proof.
  intros Hc Hr He. unfold check_banner. rewrite Hc. cbn [bind].
  rewrite Hr. cbn [bind]. destruct He as [-> | ->]; reflexivity.
Qed.

(** X5. The resolver-based DNS check reports up exactly when the query
    is answered and, if an expected address is configured, that address is
    among the answers. *)
Theorem dns_dnspython_up_iff (env : Env) (host query : str)
    (expected_ip : option str) :
  (exists m, _dns_dnspython env host query expected_ip = Ok (true, m))
  <-> exists answers,
        dns_resolve env host query = Ok answers
        /\ (truthy expected_ip = false
            \/ exists ip, expected_ip = Some ip
                          /\ In ip (List.map ipv4_str answers)).
Proof.
  unfold _dns_dnspython, try_except, bind. split.
  - intros [m H]. destruct (dns_resolve env host query) as [answers|e];
      [|discriminate H].
    exists answers. split; [reflexivity|].
    destruct (truthy expected_ip) eqn:Ht; [|left; reflexivity].
    right. destruct expected_ip as [ip|]; [|discriminate Ht].
    exists ip. split; [reflexivity|]. cbn [andb default] in H.
    case_bool_decide as Hin; [|discriminate H].
    apply list_elem_of_In, Hin.
  - intros (answers & -> & [Ht | (ip & -> & Hin)]).
    + rewrite Ht. cbn [andb]. eauto.
    + cbn [default]. rewrite bool_decide_eq_true_2
        by (apply list_elem_of_In, Hin).
      cbn [negb]. rewrite andb_false_r. eauto.
Qed.

Lemma check_ftp_verdicts_witness :
  ftp_connect (ftp samples.ftp_no_anonymous samples.target 21)
  = Ok (lit "220 (vsFTPd 3.0.3)")
  /\ ftp_login (ftp samples.ftp_no_anonymous samples.target 21)
     = Raise (ftplib_error_perm (lit "530 Login incorrect."))
  /\ check_ftp samples.ftp_no_anonymous samples.target 21
     = Ok (true, lit "Service UP (anonymous denied) | 220 (vsFTPd 3.0.3)").
Proof.
  split; [reflexivity|]. split; [reflexivity|].
  destruct (check_ftp_verdicts samples.ftp_no_anonymous samples.target 21)
    as (Hup & _ & _).
  destruct (Hup (lit "220 (vsFTPd 3.0.3)") eq_refl eq_refl) as [_ Hdenied].
  apply (Hdenied (ftplib_error_perm (lit "530 Login incorrect."))
           eq_refl eq_refl).
Defined.

Lemma check_banner_without_expectation_witness :
  _tcp_connect (samples.sends []) samples.target 143
  = Ok {| sock_data := Ok [] |}
  /\ check_banner (samples.sends []) samples.target 143 (Some [])
     = Ok (true, lit "Banner: ").
Proof.
  split; [reflexivity|].
  apply (check_banner_without_expectation (samples.sends []) samples.target
           143 _ [] (Some []) eq_refl eq_refl).
  right. reflexivity.
Defined.

(** ** The hand-built DNS query *)

Lemma list_sum_cons (a : nat) (l : list nat) :
  list_sum (a :: l) = (a + list_sum l)%nat.
Proof. reflexivity. Qed.

Lemma encode_from_ascii (s : str) (pos : nat) :
  ascii_only s -> encode_from pos s = Ok (List.map byte_of_N s).
Proof.
  intros H. revert pos.
  induction H as [|c s Hc _ IH]; intros pos; cbn [encode_from List.map];
    [reflexivity|].
  assert (is_surrogate c = false) as ->.
  { unfold is_surrogate, in_range. apply andb_false_iff. left.
    apply N.leb_gt. lia. }
  rewrite IH. cbn [bind]. unfold encode_cp.
  apply N.ltb_lt in Hc. rewrite Hc. reflexivity.
Qed.

Lemma split_dot_aux_ascii (cur s : str) :
  ascii_only cur -> ascii_only s -> Forall ascii_only (split_dot_aux cur s).
Proof.
  intros Hcur Hs. revert cur Hcur.
  induction Hs as [|c s Hc _ IH]; intros cur Hcur; cbn [split_dot_aux].
  - constructor; [|constructor]. apply Forall_rev, Hcur.
  - destruct (c =? 46)%N.
    + constructor; [apply Forall_rev, Hcur|]. apply IH. constructor.
    + apply IH. constructor; assumption.
Qed.

(** The labels and the dots between them add up to the query. *)
Lemma split_dot_aux_length (cur s : str) :
  list_sum (List.map (fun l => S (length l)) (split_dot_aux cur s))
  = S (length cur + length s).
Proof.
  revert cur. induction s as [|c s IH]; intros cur; cbn [split_dot_aux].
  - cbn. rewrite length_rev. lia.
  - destruct (c =? 46)%N.
    + cbn [List.map]. rewrite list_sum_cons, IH, length_rev. cbn. lia.
    + rewrite IH. cbn. lia.
Qed.

Lemma encode_labels_ascii (labels : list str) (qname : bytes) :
  Forall ascii_only labels ->
  Forall (fun l => (length l < 256)%nat) labels ->
  exists out,
    encode_labels labels qname = Ok (qname ++ out)
    /\ length out = list_sum (List.map (fun l => S (length l)) labels).
Proof.
  intros Ha. revert qname.
  induction Ha as [|l labels Hl _ IH]; intros qname Hlen;
    cbn [encode_labels].
  - exists []. rewrite app_nil_r. split; reflexivity.
  - inversion Hlen as [|? ? Hl256 Hrest]; subst.
    unfold encode. rewrite (encode_from_ascii l 0 Hl). cbn [bind].
    unfold bytes_of_int. rewrite length_map.
    apply Nat.ltb_lt in Hl256. rewrite Hl256. cbn [bind].
    destruct (IH (qname ++ [byte_of_N (N.of_nat (length l))]
                  ++ List.map byte_of_N l) Hrest) as (out & -> & Hout).
    exists ([byte_of_N (N.of_nat (length l))] ++ List.map byte_of_N l ++ out).
    split.
    + rewrite <- !app_assoc. reflexivity.
    + cbn [app length List.map]. rewrite list_sum_cons.
      rewrite length_app, length_map, Hout. reflexivity.
Qed.

Lemma encode_labels_oversize (labels : list str) (qname : bytes) :
  Forall ascii_only labels ->
  Exists (fun l => (256 <= length l)%nat) labels ->
  encode_labels labels qname
  = Raise (ValueError (lit "bytes must be in range(0, 256)")).
Proof.
  intros Ha. revert qname.
  induction Ha as [|l labels Hl _ IH]; intros qname Hex;
    [inversion Hex|].
  cbn [encode_labels]. unfold encode.
  rewrite (encode_from_ascii l 0 Hl). cbn [bind].
  unfold bytes_of_int. rewrite length_map.
  destruct (Nat.ltb_spec (length l) 256) as [Hlt|Hge]; [|reflexivity].
  cbn [bind]. apply IH.
  inversion Hex as [? ? Hbig | ? ? Hlater]; subst; [lia | exact Hlater].
Qed.

(** X6. For a query made of ASCII characters whose labels are all
    shorter than 256 characters, the packet is the 12-byte header, a QNAME
    one byte longer than the query, a zero byte and the four bytes of type
    A and class IN: [len(query) + 18] bytes in all. *)
Theorem dns_packet_of_ascii_query (query : str) :
  ascii_only query ->
  Forall (fun l => (length l < 256)%nat) (split_dot query) ->
  exists qname,
    dns_packet query
    = Ok (dns_header ++ (qname ++ [x00]) ++ [x00; x01] ++ [x00; x01])
    /\ length qname = S (length query)
    /\ (forall packet, dns_packet query = Ok packet ->
          length packet = (length query + 18)%nat).
Proof.
  intros Ha Hlen.
  assert (Forall ascii_only (split_dot query)) as Hlabels.
  { apply split_dot_aux_ascii; [constructor | exact Ha]. }
  destruct (encode_labels_ascii (split_dot query) [] Hlabels Hlen)
    as (qname & Henc & Hq).
  unfold split_dot in Hq. rewrite split_dot_aux_length in Hq. cbn in Hq.
  assert (dns_packet query
          = Ok (dns_header ++ (qname ++ [x00]) ++ [x00; x01] ++ [x00; x01]))
    as Hp.
  { unfold dns_packet. rewrite Henc. reflexivity. }
  exists qname. split; [exact Hp|]. split; [exact Hq|].
  intros packet H. rewrite Hp in H. injection H as <-.
  cbn [length]. rewrite !length_app, Hq. cbn [length]. lia.
Qed.

Lemma dns_packet_of_ascii_query_witness :
  ascii_only samples.qname
  /\ exists qname,
       dns_packet samples.qname
       = Ok (dns_header ++ (qname ++ [x00]) ++ [x00; x01] ++ [x00; x01])
       /\ length qname = 17%nat.
Proof.
  assert (ascii_only samples.qname) as Ha.
  { unfold ascii_only. apply List.Forall_forall. intros c Hc.
    vm_compute in Hc.
    repeat (destruct Hc as [<-|Hc]; [reflexivity|]). destruct Hc. }
  split; [exact Ha|].
  destruct (dns_packet_of_ascii_query samples.qname Ha)
    as (qname & Hp & Hl & _).
  - vm_compute. repeat constructor.
  - exists qname. split; [exact Hp | exact Hl].
Defined.

(** X7. A label of 256 characters or more cannot be length-prefixed: for
    an ASCII query with such a label the fallback reports down with the
    error of the failed conversion, whatever the network would answer. *)
Theorem dns_raw_udp_oversize_label (env : Env) (host query : str)
    (expected_ip : option str) :
  ascii_only query ->
  Exists (fun l => (256 <= length l)%nat) (split_dot query) ->
  _dns_raw_udp env host query expected_ip
  = Ok (false, lit "DNS raw query error: bytes must be in range(0, 256)").
Proof.
  intros Ha Hex.
  assert (Forall ascii_only (split_dot query)) as Hlabels.
  { apply split_dot_aux_ascii; [constructor | exact Ha]. }
  unfold _dns_raw_udp, dns_packet.
  rewrite (encode_labels_oversize _ [] Hlabels Hex). reflexivity.
Qed.

Lemma dns_raw_udp_oversize_label_witness :
  ascii_only samples.long_label
  /\ _dns_raw_udp (samples.answers samples.dns_noerror) samples.nameserver
       samples.long_label None
     = Ok (false, lit "DNS raw query error: bytes must be in range(0, 256)").
Proof.
  assert (ascii_only samples.long_label) as Ha.
  { unfold ascii_only, samples.long_label. apply List.Forall_forall.
    intros c Hc. apply repeat_spec in Hc. subst c. reflexivity. }
  split; [exact Ha|].
  apply (dns_raw_udp_oversize_label _ _ _ _ Ha).
  vm_compute. constructor. vm_compute. repeat constructor.
Defined.

(* ===================================================================== *)
(** * Further properties of the result log *)
(* ===================================================================== *)

Section LogQueries.
Import database.

Lemma Zsum_app (a b : list Z) : Zsum (a ++ b) = Zsum a + Zsum b.
Proof.
  unfold Zsum. induction a as [|x a IH]; cbn [app fold_right]; lia.
Qed.

Lemma Zsum_cons (x : Z) (l : list Z) : Zsum (x :: l) = x + Zsum l.
Proof. reflexivity. Qed.

Lemma fold_left_snoc {A B} (f : A -> B -> A) (l : list B) (x : B) (a : A) :
  fold_left f (l ++ [x]) a = f (fold_left f l a) x.
Proof. rewrite fold_left_app. reflexivity. Qed.

(** [sums_fit] is what keeps [SUM] inside 64 bits: whichever rows a query
    selects or groups, and however far it has read, its running total is a
    64-bit integer. *)
Lemma sums_fit_running_totals (values selected : list Z) :
  sums_fit values -> sublist selected values -> int64 (Zsum selected).
Proof.
  unfold sums_fit, int64. intros Hfit Hsub.
  assert (Z.abs (Zsum selected) <= Zsum (List.map Z.abs values)
          /\ 0 <= Zsum (List.map Z.abs values)) as [Hle _]; [|lia].
  clear Hfit.
  induction Hsub as [|x l1 l2 _ [IH1 IH2]|x l1 l2 _ [IH1 IH2]];
    cbn [List.map]; rewrite ?Zsum_cons; cbn [Zsum fold_right]; lia.
Qed.

(** The group of one service, computed from its rows alone. *)
Lemma stats_lookup_rows (rows : list service_check) (sid : str) :
  fold_left add_to_group rows ∅ !! sid
  = match rows_of sid rows with
    | [] => None
    | mine =>
      Some {| stats_service_id := sid;
              total_checks := Z.of_nat (length mine);
              up_count := Zsum (List.map sc_up mine);
              total_points := Zsum (List.map sc_points_earned mine) |}
    end.
Proof.
  induction rows as [|r rows IH] using rev_ind; [reflexivity|].
  rewrite fold_left_snoc. unfold rows_of in *.
  rewrite List.filter_app. cbn [List.filter].
  set (groups := fold_left add_to_group rows ∅) in *.
  unfold add_to_group. cbv zeta.
  case_bool_decide as Hr.
  - rewrite Hr, lookup_insert_eq, IH.
    destruct (List.filter _ rows) as [|r0 mine]; cbn [app default].
    + cbn. do 2 f_equal; lia.
    + cbn [total_checks up_count total_points List.map length].
      rewrite !List.map_app, length_app, !Zsum_cons, !Zsum_app.
      cbn [List.map length]. rewrite !Zsum_cons. cbn.
      f_equal. f_equal; lia.
  - rewrite lookup_insert_ne by exact Hr. rewrite IH, app_nil_r.
    reflexivity.
Qed.

End LogQueries.

(** X8. On a log whose [up] flags and points can be summed within 64
    bits, [get_service_stats] holds an entry for a service exactly when the
    log has rows for it (a service never checked is a missing key), and the
    entry counts those rows, adds up their [up] flags and adds up their
    points. *)
Theorem service_stats_lookup (db : database.Database) (sid : str) :
  database.sums_fit
    (List.map database.sc_up (database.service_checks db)) ->
  database.sums_fit
    (List.map database.sc_points_earned (database.service_checks db)) ->
  database.get_service_stats db !! sid
  = match database.rows_of sid (database.service_checks db) with
    | [] => None
    | mine =>
      Some {| database.stats_service_id := sid;
              database.total_checks := Z.of_nat (length mine);
              database.up_count := Zsum (List.map database.sc_up mine);
              database.total_points :=
                Zsum (List.map database.sc_points_earned mine) |}
    end.
Proof. intros _ _. apply stats_lookup_rows. Qed.

Lemma service_stats_lookup_witness :
  database.sums_fit
    (List.map database.sc_up
       (database.service_checks (database.db_after [samples.one_save])))
  /\ database.sums_fit
       (List.map database.sc_points_earned
          (database.service_checks (database.db_after [samples.one_save])))
  /\ database.get_service_stats (database.db_after [samples.one_save])
       !! lit "smtp"
     = Some {| database.stats_service_id := lit "smtp";
               database.total_checks := 1;
               database.up_count := 1;
               database.total_points := 75 |}
  /\ database.get_service_stats (database.db_after [samples.one_save])
       !! lit "http"
     = None.
Proof.
  assert (database.sums_fit
            (List.map database.sc_up
               (database.service_checks
                  (database.db_after [samples.one_save])))) as Hup
    by (vm_compute; reflexivity).
  assert (database.sums_fit
            (List.map database.sc_points_earned
               (database.service_checks
                  (database.db_after [samples.one_save])))) as Hpts
    by (vm_compute; reflexivity).
  split; [exact Hup|]. split; [exact Hpts|]. split.
  - rewrite (service_stats_lookup _ (lit "smtp") Hup Hpts).
    vm_compute. reflexivity.
  - rewrite (service_stats_lookup _ (lit "http") Hup Hpts).
    vm_compute. reflexivity.
Defined.

Section LogInvariant.
Import database.

Lemma seqZ_snoc (m : Z) (n : nat) :
  seqZ m (Z.of_nat (S n)) = seqZ m (Z.of_nat n) ++ [m + Z.of_nat n].
Proof.
  replace (Z.of_nat (S n)) with (Z.of_nat n + 1) by lia.
  rewrite seqZ_app by lia. reflexivity.
Qed.

Lemma insert_checks_ids (round_id seq : Z) (results : list result) :
  List.map sc_id (insert_checks round_id seq results)
  = seqZ (seq + 1) (Z.of_nat (length results)).
Proof.
  revert seq. induction results as [|r results IH]; intros seq;
    [reflexivity|].
  cbn [insert_checks List.map length sc_id]. rewrite IH.
  replace (Z.of_nat (S (length results)))
    with (1 + Z.of_nat (length results)) by lia.
  rewrite seqZ_app by lia. reflexivity.
Qed.

Lemma insert_checks_length (round_id seq : Z) (results : list result) :
  length (insert_checks round_id seq results) = length results.
Proof.
  revert seq. induction results as [|r results IH]; intros seq; cbn;
    [reflexivity|]. rewrite IH. reflexivity.
Qed.

Lemma insert_checks_round (round_id seq : Z) (results : list result) :
  Forall (fun row => sc_round_id row = round_id)
    (insert_checks round_id seq results).
Proof.
  revert seq. induction results as [|r results IH]; intros seq; cbn;
    constructor; [reflexivity | apply IH].
Qed.

Lemma insert_checks_keys (round_id seq : Z) (results : list result) :
  List.map sc_service_id (insert_checks round_id seq results)
  = List.map service_id results.
Proof.
  revert seq. induction results as [|r results IH]; intros seq; cbn;
    [reflexivity|]. rewrite IH. reflexivity.
Qed.

Lemma insert_checks_stores (round_id seq : Z) (results : list result)
    (r : result) :
  In r results ->
  exists row, In row (insert_checks round_id seq results) /\ stored_as r row.
Proof.
  revert seq. induction results as [|r0 results IH]; intros seq Hin;
    [destruct Hin|].
  destruct Hin as [->|Hin].
  - eexists. split; [left; reflexivity|]. repeat split.
  - destruct (IH (seq + 1) Hin) as (row & Hrow & Hst).
    exists row. split; [right; exact Hrow | exact Hst].
Qed.

Lemma well_formed_init : well_formed init_db.
Proof. repeat split. constructor. Qed.

Lemma well_formed_save (ts : str) (db : Database) (results : list result)
    (score top : Z) :
  well_formed db -> well_formed (save_round ts db results score top).
Proof.
  intros (Hr & Hsr & Hc & Hsc & Hfk). unfold well_formed, save_round.
  cbn [check_rounds service_checks seq_rounds seq_checks].
  rewrite !List.map_app, !length_app, Hr, Hc, insert_checks_ids,
    insert_checks_length. cbn [List.map length id].
  repeat split.
  - rewrite Nat.add_1_r, seqZ_snoc, Hsr. f_equal. f_equal. lia.
  - lia.
  - rewrite Nat2Z.inj_add, seqZ_app by lia. rewrite Hsc. f_equal.
    f_equal. lia.
  - lia.
  - apply Forall_app. split.
    + eapply List.Forall_impl; [|exact Hfk]. cbn. intros row H. lia.
    + eapply List.Forall_impl; [|apply insert_checks_round].
      cbn. intros row ->. lia.
Qed.

Lemma db_after_snoc (calls : list saved) (c : saved) :
  db_after (calls ++ [c])
  = save_round (saved_at c) (db_after calls) (saved_results c)
      (saved_score c) (saved_max c).
Proof. unfold db_after. rewrite fold_left_snoc. reflexivity. Qed.

Lemma db_after_well_formed (calls : list saved) : well_formed (db_after calls).
Proof.
  induction calls as [|c calls IH] using rev_ind;
    [apply well_formed_init|].
  rewrite db_after_snoc. apply well_formed_save, IH.
Qed.

Lemma db_after_checks_length (calls : list saved) :
  length (service_checks (db_after calls))
  = list_sum (List.map (fun c => length (saved_results c)) calls).
Proof.
  induction calls as [|c calls IH] using rev_ind; [reflexivity|].
  rewrite db_after_snoc. unfold save_round. cbn [service_checks].
  rewrite length_app, insert_checks_length, IH, List.map_app, list_sum_app.
  cbn. lia.
Qed.

Lemma db_after_rounds_length (calls : list saved) :
  length (check_rounds (db_after calls)) = length calls.
Proof.
  induction calls as [|c calls IH] using rev_ind; [reflexivity|].
  rewrite db_after_snoc. unfold save_round. cbn [check_rounds].
  rewrite !length_app, IH. reflexivity.
Qed.

End LogInvariant.

(** X9. However many rounds have been saved, the log stays consistent:
    round ids are 1, 2, ..., n in insertion order and check-row ids are
    1, 2, ..., N (so both are unique), every check row belongs to a round
    that exists, and there is one check row per saved result. *)
Theorem saved_log_is_consistent (calls : list database.saved) :
  let db := database.db_after calls in
  List.map database.id (database.check_rounds db)
  = seqZ 1 (Z.of_nat (length calls))
  /\ List.map database.sc_id (database.service_checks db)
     = seqZ 1 (Z.of_nat (length (database.service_checks db)))
  /\ Forall (fun row =>
               In (database.sc_round_id row)
                  (List.map database.id (database.check_rounds db)))
       (database.service_checks db)
  /\ length (database.service_checks db)
     = list_sum (List.map (fun c => length (database.saved_results c)) calls).
Proof.
  intros db. destruct (db_after_well_formed calls) as (Hr & Hsr & Hc & _ & Hfk).
  fold db in Hr, Hsr, Hc, Hfk.
  pose proof (db_after_rounds_length calls) as Hn. fold db in Hn.
  split; [rewrite Hr, Hn; reflexivity|]. split; [exact Hc|].
  split; [|apply db_after_checks_length].
  eapply List.Forall_impl; [|exact Hfk]. cbn. intros row H.
  rewrite Hr. apply list_elem_of_In, elem_of_seqZ. lia.
Qed.

(** A dictionary built by a loop over entries with distinct keys holds
    every entry's value under its key and nothing under any other key. *)
Lemma keyed_fold_lookup {A B} (key : A -> str) (val : A -> B) (l : list A) :
  NoDup (List.map key l) ->
  (forall x, In x l ->
     fold_left (fun m r => <[key r := val r]> m) l (∅ : gmap str B) !! key x
     = Some (val x))
  /\ (forall k, ~ In k (List.map key l) ->
        fold_left (fun m r => <[key r := val r]> m) l (∅ : gmap str B) !! k
        = None).
Proof.
  induction l as [|y l IH] using rev_ind; intros Hnd.
  - split; [intros x []|]. intros k _. apply lookup_empty.
  - rewrite List.map_app in Hnd. cbn [List.map] in Hnd.
    apply NoDup_app in Hnd as (Hl & Hdisj & _).
    destruct (IH Hl) as [IHin IHout].
    split.
    + intros x Hx. rewrite fold_left_app. cbn [fold_left].
      apply in_app_or in Hx as [Hx|[<-|[]]].
      * rewrite lookup_insert_ne; [apply IHin, Hx|].
        intros Heq. apply (Hdisj (key x)).
        -- apply list_elem_of_In, in_map, Hx.
        -- rewrite <- Heq. left.
      * apply lookup_insert_eq.
    + intros k Hk. rewrite fold_left_app. cbn [fold_left].
      rewrite List.map_app in Hk. cbn [List.map] in Hk.
      rewrite lookup_insert_ne.
      * apply IHout. intros Hin. apply Hk, in_or_app. left. exact Hin.
      * intros <-. apply Hk, in_or_app. right. left. reflexivity.
Qed.

Section LastRound.
Import database.

Lemma filter_none {A} (f : A -> bool) (l : list A) :
  Forall (fun x => f x = false) l -> List.filter f l = [].
Proof.
  induction 1 as [|x l Hx _ IH]; cbn; [reflexivity|]. rewrite Hx. exact IH.
Qed.

Lemma filter_all {A} (f : A -> bool) (l : list A) :
  Forall (fun x => f x = true) l -> List.filter f l = l.
Proof.
  induction 1 as [|x l Hx _ IH]; cbn; [reflexivity|]. rewrite Hx, IH.
  reflexivity.
Qed.

(** After a save, the rows of the newest round are the rows just
    inserted. *)
Lemma last_round_after_save (ts : str) (db : Database)
    (results : list result) (score top : Z) :
  well_formed db -> ids_ascend db ->
  get_last_round_results (save_round ts db results score top)
  = rows_by_service
      (insert_checks (seq_rounds db + 1) (seq_checks db) results).
Proof.
  intros Hwf Hasc. unfold get_last_round_results.
  pose proof (ids_ascend_save ts db results score top Hasc) as [Hs _].
  rewrite (order_by_id_desc_rev _ Hs).
  unfold save_round at 1. cbn [check_rounds].
  rewrite rev_app_distr. cbn [rev app].
  match goal with
  | |- context [sql_limit 1 (?x :: ?l)] =>
      change (sql_limit 1 (x :: l)) with [x]
  end.
  cbn [id]. unfold save_round. cbn [service_checks].
  rewrite List.filter_app. destruct Hwf as (_ & _ & _ & _ & Hfk).
  rewrite filter_none, filter_all; [reflexivity| |].
  - eapply List.Forall_impl; [|apply insert_checks_round].
    cbn. intros row ->. apply Z.eqb_refl.
  - eapply List.Forall_impl; [|exact Hfk]. cbn. intros row H.
    apply Z.eqb_neq. lia.
Qed.

End LastRound.

(** X10. Right after a round is saved, [get_last_round_results] returns
    that round and nothing else: each result of the round (their service
    ids being distinct) is found under its service id, stored with its
    verdict, points and message and with the id of the new round; an id
    that the round did not check is a missing key. *)
Theorem last_round_results_are_the_saved_ones
    (calls : list database.saved) (c : database.saved) :
  NoDup (List.map database.service_id (database.saved_results c)) ->
  let db := database.db_after (calls ++ [c]) in
  (forall r, In r (database.saved_results c) ->
     exists row,
       database.get_last_round_results db !! database.service_id r = Some row
       /\ database.stored_as r row
       /\ database.sc_round_id row = Z.of_nat (length calls) + 1)
  /\ (forall sid,
        ~ In sid (List.map database.service_id (database.saved_results c)) ->
        database.get_last_round_results db !! sid = None).
Proof.
  intros Hnd db. subst db. rewrite db_after_snoc.
  rewrite last_round_after_save
    by (apply db_after_well_formed || apply db_after_ascend).
  set (rid := database.seq_rounds (database.db_after calls) + 1).
  set (rows := database.insert_checks rid _ _).
  assert (List.map database.sc_service_id rows
          = List.map database.service_id (database.saved_results c)) as Hkeys
    by apply insert_checks_keys.
  assert (rid = Z.of_nat (length calls) + 1) as Hrid.
  { unfold rid. destruct (db_after_well_formed calls) as (_ & -> & _).
    rewrite db_after_rounds_length. reflexivity. }
  destruct (keyed_fold_lookup database.sc_service_id (fun row => row) rows)
    as [Hin Hout].
  { rewrite Hkeys. exact Hnd. }
  split.
  - intros r Hr.
    destruct (insert_checks_stores rid
                (database.seq_checks (database.db_after calls))
                (database.saved_results c) r Hr) as (row & Hrow & Hst).
    exists row. split; [|split; [exact Hst|]].
    + destruct Hst as (<- & _). apply Hin, Hrow.
    + rewrite <- Hrid.
      pose proof (insert_checks_round rid
                    (database.seq_checks (database.db_after calls))
                    (database.saved_results c)) as Hall.
      rewrite List.Forall_forall in Hall. apply Hall, Hrow.
  - intros sid Hsid. apply Hout. rewrite Hkeys. exact Hsid.
Qed.

Lemma last_round_results_are_the_saved_ones_witness :
  NoDup (List.map database.service_id
           (database.saved_results samples.one_save))
  /\ exists row,
       database.get_last_round_results (database.db_after [samples.one_save])
         !! lit "ftp" = Some row
       /\ database.sc_up row = 0
       /\ database.sc_message row = lit "FTP error: timed out"
       /\ database.sc_round_id row = 1.
Proof.
  assert (NoDup (List.map database.service_id
                   (database.saved_results samples.one_save))) as Hnd.
  { refine (bool_decide_unpack _ _). vm_compute. exact I. }
  split; [exact Hnd|].
  destruct (last_round_results_are_the_saved_ones [] samples.one_save Hnd)
    as [Hin _].
  destruct (Hin {| database.service_id := lit "ftp"; database.up := false;
                   database.points_earned := 0;
                   database.message := lit "FTP error: timed out" |})
    as (row & Hrow & (_ & Hup & _ & Hmsg) & Hid).
  { right. left. reflexivity. }
  exists row. repeat split; assumption.
Defined.

Section LogTotals.
Import database.

Lemma cumulative_fold (rows : list check_round) (acc : Z) :
  fold_left (fun a r => a + round_score r) rows acc
  = acc + Zsum (List.map round_score rows).
Proof.
  revert acc. induction rows as [|r rows IH]; intros acc;
    cbn [fold_left List.map]; [unfold Zsum; cbn; lia|].
  rewrite IH, Zsum_cons. lia.
Qed.

Lemma cumulative_after_save (ts : str) (db : Database)
    (results : list result) (score top : Z) :
  get_cumulative_score (save_round ts db results score top)
  = get_cumulative_score db + score.
Proof.
  unfold get_cumulative_score, save_round. cbn [check_rounds].
  rewrite !cumulative_fold, List.map_app, Zsum_app. cbn. lia.
Qed.

Lemma insert_desc_length (r : check_round) (l : list check_round) :
  length (insert_desc r l) = S (length l).
Proof.
  induction l as [|x l IH]; cbn; [reflexivity|].
  destruct (id x <=? id r); cbn; [reflexivity|]. rewrite IH. reflexivity.
Qed.

Lemma order_by_id_desc_length (rows : list check_round) :
  length (order_by_id_desc rows) = length rows.
Proof.
  induction rows as [|r rows IH]; cbn; [reflexivity|].
  rewrite insert_desc_length. unfold order_by_id_desc in IH. rewrite IH.
  reflexivity.
Qed.

End LogTotals.

(** X11. After a sequence of saved rounds whose scores can be summed
    within 64 bits, the cumulative score is the sum of the saved round
    scores (0 on an empty log) and the round count is the number of saves;
    a further save that keeps the scores summable adds its score and one
    round. *)
Theorem totals_after_saves (calls : list database.saved) :
  database.sums_fit (List.map database.saved_score calls) ->
  database.get_cumulative_score (database.db_after calls)
  = Zsum (List.map database.saved_score calls)
  /\ database.get_round_count (database.db_after calls)
     = Z.of_nat (length calls)
  /\ (forall c,
        database.sums_fit
          (List.map database.saved_score (calls ++ [c])) ->
        database.get_cumulative_score (database.db_after (calls ++ [c]))
        = database.get_cumulative_score (database.db_after calls)
          + database.saved_score c
        /\ database.get_round_count (database.db_after (calls ++ [c]))
           = database.get_round_count (database.db_after calls) + 1).
Proof.
  intros _. split; [|split].
  - induction calls as [|c calls IH] using rev_ind; [reflexivity|].
    rewrite db_after_snoc, cumulative_after_save, IH, List.map_app, Zsum_app.
    cbn. lia.
  - unfold database.get_round_count. rewrite db_after_rounds_length.
    reflexivity.
  - intros c _. split.
    + rewrite db_after_snoc. apply cumulative_after_save.
    + unfold database.get_round_count.
      rewrite !db_after_rounds_length, length_app. cbn. lia.
Qed.

(** X12. Whatever the log holds, and for a limit that SQLite can bind (a
    signed 64-bit integer), [get_recent_rounds] and [get_score_history]
    return the same number of entries: all rounds for a negative limit,
    otherwise the smaller of the limit and the number of rounds (none for
    limit 0). *)
Theorem history_length (db : database.Database) (limit : Z) :
  database.int64 limit ->
  let n := length (database.check_rounds db) in
  let expected := if limit <? 0 then n else Nat.min (Z.to_nat limit) n in
  length (database.get_recent_rounds db limit) = expected
  /\ length (database.get_score_history db limit) = expected.
Proof.
  intros _ n expected.
  assert (length (database.get_recent_rounds db limit) = expected) as H.
  { unfold database.get_recent_rounds, database.sql_limit, expected, n.
    destruct (limit <? 0).
    - apply order_by_id_desc_length.
    - rewrite length_firstn, order_by_id_desc_length. reflexivity. }
  split; [exact H|].
  unfold database.get_score_history. rewrite length_rev, length_map.
  exact H.
Qed.

Lemma totals_after_saves_witness :
  database.sums_fit (List.map database.saved_score [samples.one_save])
  /\ database.get_cumulative_score (database.db_after [samples.one_save])
     = 75
  /\ database.get_cumulative_score
       (database.db_after ([samples.one_save] ++ [samples.one_save]))
     = 75 + 75.
Proof.
  assert (database.sums_fit
            (List.map database.saved_score [samples.one_save])) as H1
    by (vm_compute; reflexivity).
  split; [exact H1|].
  destruct (totals_after_saves [samples.one_save] H1) as (Hsum & _ & Hnext).
  split; [exact Hsum|].
  destruct (Hnext samples.one_save) as [Hcum _];
    [vm_compute; reflexivity|].
  rewrite Hcum, Hsum. reflexivity.
Defined.

Lemma history_length_witness :
  database.int64 30
  /\ length (database.get_score_history
               (database.db_after [samples.one_save]) 30) = 1%nat.
Proof.
  assert (database.int64 30) as H by (unfold database.int64; lia).
  split; [exact H|].
  destruct (history_length (database.db_after [samples.one_save]) 30 H)
    as [_ Hlen].
  exact Hlen.
Defined.

(* ===================================================================== *)
(** * Further properties of the scheduler and of the status endpoint *)
(* ===================================================================== *)

Lemma configured_ids_distinct (RANGE_ID : Z) :
  NoDup (List.map svc_id (config.SERVICES RANGE_ID)).
Proof. refine (bool_decide_unpack _ _). vm_compute. exact I. Qed.

Lemma countdown_eq (st : State) : countdown st = set_next_check_in 0 st.
Proof.
  destruct (countdown_keeps st) as (H1 & H2 & H3 & H4 & H5).
  destruct (countdown st) as [t n c s b]. cbn in *. subst.
  reflexivity.
Qed.

Lemma loop_body_when_save_succeeds (RANGE_ID : Z) (r : Round) (w : World) :
  save_raises r = None ->
  let results := List.map (result_of (net r)) (config.SERVICES RANGE_ID) in
  let score := Zsum (List.map database.points_earned results) in
  let w' := loop_body RANGE_ID r w in
  state w'
  = {| last_check_time := Some (publish_now r); next_check_in := 0;
       current_results := results_by_id results; round_score := score;
       is_checking := false |}
  /\ db w'
     = database.save_round (save_now r) (db w) results score
         (config.MAX_SCORE_PER_ROUND RANGE_ID)
  /\ last (log w')
     = Some (match read_raises r with
             | None =>
                 info_round_complete score
                   (config.MAX_SCORE_PER_ROUND RANGE_ID)
                   (database.get_cumulative_score (db w) + score)
             | Some e => error_unhandled (exn_str e)
             end).
Proof.
  intros Hsave results score w'. subst w'.
  unfold loop_body, _run_one_round. rewrite run_checks_eq, Hsave.
  fold results. rewrite <- (List.map_map (result_of (net r))
                              database.points_earned).
  fold results. fold score. cbn [state db log].
  destruct (read_raises r) as [e|]; cbn [state db log];
    rewrite countdown_eq; (split; [reflexivity|]); (split; [reflexivity|]).
  - apply last_snoc.
  - rewrite cumulative_after_save. apply last_snoc.
Qed.

(** X13. A round whose write succeeds is published and persisted in
    full: the shared state then holds the new check time, the round's
    score and its per-service results, with the in-progress flag cleared
    and the countdown at 0, and the log has the new round.  This is so
    even if reading the cumulative score for the summary line raises
    afterwards; the loop then logs that error in place of the summary.
    When that read succeeds, the cumulative score has grown by the round's
    score. *)
Theorem saved_round_is_published (RANGE_ID : Z) (r : Round) (w : World) :
  save_raises r = None ->
  let '(results, score, _) :=
    run_checks (net r) (config.SERVICES RANGE_ID) in
  let w' := loop_body RANGE_ID r w in
  state w'
  = {| last_check_time := Some (publish_now r); next_check_in := 0;
       current_results := results_by_id results; round_score := score;
       is_checking := false |}
  /\ db w'
     = database.save_round (save_now r) (db w) results score
         (config.MAX_SCORE_PER_ROUND RANGE_ID)
  /\ match read_raises r with
     | None =>
         database.get_cumulative_score (db w')
         = database.get_cumulative_score (db w) + score
     | Some _ => True
     end
  /\ last (log w')
     = Some (match read_raises r with
             | None =>
                 info_round_complete score
                   (config.MAX_SCORE_PER_ROUND RANGE_ID)
                   (database.get_cumulative_score (db w) + score)
             | Some e => error_unhandled (exn_str e)
             end).
Proof.
  intros Hsave. rewrite run_checks_eq.
  destruct (loop_body_when_save_succeeds RANGE_ID r w Hsave)
    as (Hst & Hdb & Hlog).
  rewrite List.map_map in Hst, Hdb, Hlog.
  split; [exact Hst|]. split; [exact Hdb|]. split; [|exact Hlog].
  destruct (read_raises r); [exact I|].
  rewrite Hdb. apply cumulative_after_save.
Qed.

Example quiet_round_score :
  snd (fst (run_checks (net samples.quiet_round) (config.SERVICES 10))) = 250.
Proof. vm_compute. reflexivity. Qed.

Lemma saved_round_is_published_witness :
  save_raises samples.quiet_round = None
  /\ round_score (state (loop_body 10 samples.quiet_round startup)) = 250
  /\ last_check_time (state (loop_body 10 samples.quiet_round startup))
     = Some (lit "2025-01-01 12:00:01").
Proof.
  split; [reflexivity|].
  pose proof (saved_round_is_published 10 samples.quiet_round startup eq_refl)
    as H.
  pose proof quiet_round_score as Hs.
  destruct (run_checks (net samples.quiet_round) (config.SERVICES 10))
    as [[results score] lines].
  cbn [fst snd] in Hs. destruct H as (Hst & _).
  rewrite Hst. cbn [round_score last_check_time]. split; [exact Hs|reflexivity].
Defined.

Section Status.
Variable RANGE_ID : Z.

Lemma services_out_lookup (results : gmap str database.result) :
  (forall svc, In svc (config.SERVICES RANGE_ID) ->
     fold_left (fun out svc => <[svc_id svc := status_of results svc]> out)
       (config.SERVICES RANGE_ID) (∅ : gmap str service_status)
       !! svc_id svc
     = Some (status_of results svc))
  /\ (forall k, ~ In k (List.map svc_id (config.SERVICES RANGE_ID)) ->
        fold_left (fun out svc => <[svc_id svc := status_of results svc]> out)
          (config.SERVICES RANGE_ID) (∅ : gmap str service_status) !! k
        = None).
Proof.
  apply (keyed_fold_lookup svc_id (status_of results)).
  apply configured_ids_distinct.
Qed.

Lemma results_by_id_lookup (env : Env) (svc : service) :
  In svc (config.SERVICES RANGE_ID) ->
  results_by_id (List.map (result_of env) (config.SERVICES RANGE_ID))
    !! svc_id svc
  = Some (result_of env svc).
Proof.
  intros Hin. unfold results_by_id.
  destruct (keyed_fold_lookup database.service_id (fun r => r)
              (List.map (result_of env) (config.SERVICES RANGE_ID)))
    as [Hlook _].
  - rewrite List.map_map.
    rewrite (List.map_ext _ svc_id (result_of_id env)).
    apply configured_ids_distinct.
  - rewrite <- (result_of_id env svc). apply Hlook.
    apply in_map, Hin.
Qed.

End Status.

(** X14. [/api/status] lists the configured services and nothing else:
    each one appears under its id with its display name and, when the
    shared state holds a result for it, that result's verdict, points and
    message; a service without a result yet is shown with a null verdict,
    0 points and an empty message.  Any other key is absent. *)
Theorem api_status_services (RANGE_ID : Z) (w : World) :
  exists j,
    api_status RANGE_ID None w = Ok j
    /\ (forall svc, In svc (config.SERVICES RANGE_ID) ->
          json_services j !! svc_id svc
          = Some (match current_results (state w) !! svc_id svc with
                  | Some r =>
                      {| status_name := name svc;
                         status_up := Some (database.up r);
                         status_points_earned := database.points_earned r;
                         status_message := database.message r |}
                  | None =>
                      {| status_name := name svc; status_up := None;
                         status_points_earned := 0; status_message := [] |}
                  end))
    /\ (forall k, ~ In k (List.map svc_id (config.SERVICES RANGE_ID)) ->
          json_services j !! k = None).
Proof.
  eexists. split; [reflexivity|]. cbn [json_services].
  destruct (services_out_lookup RANGE_ID (current_results (state w)))
    as [Hin Hout].
  split; [|exact Hout].
  intros svc Hsvc. rewrite (Hin svc Hsvc). unfold status_of.
  destruct (current_results (state w) !! svc_id svc); reflexivity.
Qed.

(** X15. After a pass of the loop whose write succeeded, [/api/status]
    reports that round: every configured service with the verdict, points
    and message of its check, the round's score, the cumulative score and
    round count grown by this round, no check in progress and the
    countdown at 0. *)
Theorem api_status_after_saved_round (RANGE_ID : Z) (r : Round) (w : World) :
  save_raises r = None ->
  exists j,
    api_status RANGE_ID None (loop_body RANGE_ID r w) = Ok j
    /\ Forall
         (fun svc =>
            json_services j !! svc_id svc
            = Some {| status_name := name svc;
                      status_up := Some (database.up (result_of (net r) svc));
                      status_points_earned :=
                        database.points_earned (result_of (net r) svc);
                      status_message :=
                        database.message (result_of (net r) svc) |})
         (config.SERVICES RANGE_ID)
    /\ json_round_score j
       = Zsum (List.map (fun svc => database.points_earned
                                      (result_of (net r) svc))
                 (config.SERVICES RANGE_ID))
    /\ json_cumulative_score j
       = database.get_cumulative_score (db w) + json_round_score j
    /\ json_round_count j = database.get_round_count (db w) + 1
    /\ json_last_check_time j = Some (publish_now r)
    /\ json_is_checking j = false
    /\ json_next_check_in j = 0.
Proof.
  intros Hsave.
  destruct (loop_body_when_save_succeeds RANGE_ID r w Hsave)
    as (Hst & Hdb & _).
  set (w' := loop_body RANGE_ID r w) in *.
  destruct (services_out_lookup RANGE_ID (current_results (state w')))
    as [Hin _].
  eexists. split; [reflexivity|].
  cbn [json_services json_round_score json_cumulative_score json_round_count
       json_last_check_time json_is_checking json_next_check_in].
  split.
  { apply List.Forall_forall. intros svc Hsvc.
    rewrite (Hin svc Hsvc), Hst. cbn [current_results]. unfold status_of.
    rewrite (results_by_id_lookup RANGE_ID (net r) svc Hsvc). reflexivity. }
  rewrite Hst, Hdb. cbn [round_score last_check_time is_checking
                         next_check_in].
  rewrite List.map_map.
  split; [reflexivity|]. split; [apply cumulative_after_save|].
  split; [|repeat split].
  unfold database.get_round_count, database.save_round.
  cbn [database.check_rounds]. rewrite length_app. cbn. lia.
Qed.

Lemma api_status_after_saved_round_witness :
  save_raises samples.quiet_round = None
  /\ exists j,
       api_status 10 None (loop_body 10 samples.quiet_round startup) = Ok j
       /\ json_round_count j = 1
       /\ json_is_checking j = false.
Proof.
  split; [reflexivity|].
  destruct (api_status_after_saved_round 10 samples.quiet_round startup
              eq_refl)
    as (j & Hj & _ & _ & _ & Hcount & _ & Hchk & _).
  exists j. split; [exact Hj|]. split; [exact Hcount | exact Hchk].
Defined.

(** ** What the loop keeps true from pass to pass *)

Section Loop.
Variable RANGE_ID : Z.

Lemma round_score_bounds (env : Env) :
  0 <= Zsum (List.map database.points_earned
               (List.map (result_of env) (config.SERVICES RANGE_ID)))
    <= config.MAX_SCORE_PER_ROUND RANGE_ID.
Proof.
  rewrite List.map_map. unfold config.MAX_SCORE_PER_ROUND.
  rewrite sum_points_eq. apply earned_bounds, configured_points_nonneg.
Qed.

Lemma scheduler_loop_preserves (P : World -> Prop) :
  (forall r w, P w -> P (loop_body RANGE_ID r w)) ->
  forall rounds w, P w -> P (_scheduler_loop RANGE_ID rounds w).
Proof.
  intros Hstep rounds. induction rounds as [|r rounds IH]; intros w Hw;
    cbn [_scheduler_loop]; [exact Hw|]. apply IH, Hstep, Hw.
Qed.

Lemma settled_step (r : Round) (w : World) :
  settled RANGE_ID w -> settled RANGE_ID (loop_body RANGE_ID r w).
Proof.
  intros (Hc & Hn & Hs & Hcum & Hrows). unfold settled.
  destruct (save_raises r) as [e|] eqn:Hsave.
  - destruct (loop_body_when_save_raises RANGE_ID r w e Hsave)
      as (_ & H2 & _ & H4 & H5 & H6 & _).
    rewrite H2, H4, H5, H6. repeat split; try assumption; apply Hs || apply Hcum.
  - destruct (loop_body_when_save_succeeds RANGE_ID r w Hsave)
      as (Hst & Hdb & _).
    pose proof (round_score_bounds (net r)) as Hb.
    rewrite Hst, Hdb. cbn [is_checking next_check_in round_score].
    rewrite cumulative_after_save.
    split; [reflexivity|]. split; [reflexivity|]. split; [exact Hb|].
    split.
    + unfold database.get_round_count, database.save_round in *.
      cbn [database.check_rounds]. rewrite length_app. cbn [length].
      rewrite max_score_value in *. lia.
    + unfold database.save_round. cbn [database.check_rounds].
      apply Forall_app. split; [exact Hrows|].
      constructor; [|constructor].
      cbn [database.max_score database.round_score].
      split; [reflexivity | exact Hb].
Qed.

Lemma settled_startup : settled RANGE_ID startup.
Proof.
  unfold settled. rewrite max_score_value.
  split; [reflexivity|]. split; [reflexivity|].
  split; [change (0 <= 0 <= 750); lia|].
  split; [change (0 <= 0 <= 750 * 0); lia|]. constructor.
Qed.

Lemma round_count_step (r : Round) (w : World) :
  database.get_round_count (db (loop_body RANGE_ID r w))
  = database.get_round_count (db w)
    + (if bool_decide (save_raises r = None) then 1 else 0).
Proof.
  destruct (save_raises r) as [e|] eqn:Hsave.
  - destruct (loop_body_when_save_raises RANGE_ID r w e Hsave)
      as (_ & _ & _ & _ & _ & H6 & _).
    rewrite H6. rewrite bool_decide_eq_false_2 by discriminate. lia.
  - destruct (loop_body_when_save_succeeds RANGE_ID r w Hsave)
      as (_ & Hdb & _).
    rewrite Hdb. rewrite bool_decide_eq_true_2 by reflexivity.
    unfold database.get_round_count, database.save_round.
    cbn [database.check_rounds]. rewrite length_app. cbn. lia.
Qed.

Lemma round_count_loop (rounds : list Round) (w : World) :
  database.get_round_count (db (_scheduler_loop RANGE_ID rounds w))
  = database.get_round_count (db w) + Z.of_nat (saved_count rounds).
Proof.
  revert w. induction rounds as [|r rounds IH]; intros w;
    cbn [_scheduler_loop]; [unfold saved_count; cbn; lia|].
  rewrite IH, round_count_step. unfold saved_count. cbn [List.filter].
  destruct (bool_decide (save_raises r = None)); cbn [length]; lia.
Qed.

End Loop.

(** X16. From startup and after any number of passes, however each one
    ended: no check is marked in progress and the countdown is at 0; the
    published round score lies between 0 and the maximum; every stored
    round carries the maximum 750 and a score within it; the number of
    stored rounds is the number of passes whose write succeeded; and the
    cumulative score is at most 750 times that number. *)
Theorem scheduler_keeps_bounds (RANGE_ID : Z) (rounds : list Round) :
  let w := _scheduler_loop RANGE_ID rounds startup in
  is_checking (state w) = false
  /\ next_check_in (state w) = 0
  /\ 0 <= round_score (state w) <= 750
  /\ database.get_round_count (db w) = Z.of_nat (saved_count rounds)
  /\ 0 <= database.get_cumulative_score (db w)
     <= 750 * Z.of_nat (saved_count rounds)
  /\ Forall
       (fun row =>
          database.max_score row = 750
          /\ 0 <= database.round_score row <= 750)
       (database.check_rounds (db w)).
Proof.
  intros w.
  pose proof (scheduler_loop_preserves RANGE_ID (settled RANGE_ID)
                (settled_step RANGE_ID) rounds startup
                (settled_startup RANGE_ID)) as (Hc & Hn & Hs & Hcum & Hrows).
  pose proof (round_count_loop RANGE_ID rounds startup) as Hcount.
  fold w in Hc, Hn, Hs, Hcum, Hrows, Hcount.
  rewrite max_score_value in *.
  change (database.get_round_count (db startup)) with 0 in Hcount.
  rewrite Z.add_0_l in Hcount.
  split; [exact Hc|]. split; [exact Hn|]. split; [exact Hs|].
  split; [exact Hcount|]. split; [rewrite <- Hcount; exact Hcum|].
  eapply List.Forall_impl; [|exact Hrows]. cbn. intros row [Hm Hb].
  rewrite Hm in Hb. split; assumption.
Qed.

Section Stats.
Variable RANGE_ID : Z.

Lemma rows_of_inserted (env : Env) (rid : Z) (services : list service)
    (seq : Z) (svc : service) :
  NoDup (List.map svc_id services) ->
  (In svc services ->
   exists row,
     database.rows_of (svc_id svc)
       (database.insert_checks rid seq (List.map (result_of env) services))
     = [row]
     /\ row_scores svc row)
  /\ (~ In (svc_id svc) (List.map svc_id services) ->
      database.rows_of (svc_id svc)
        (database.insert_checks rid seq (List.map (result_of env) services))
      = []).
Proof.
  revert seq. induction services as [|s0 services IH]; intros seq Hnd.
  - split; [intros []|]. reflexivity.
  - cbn [List.map] in Hnd. apply NoDup_cons in Hnd as [Hfresh Hnd].
    rewrite list_elem_of_In in Hfresh.
    destruct (IH (seq + 1) Hnd) as [IHin IHout].
    cbn [List.map database.insert_checks]. unfold database.rows_of in *.
    cbn [List.filter database.sc_service_id]. rewrite result_of_id.
    split.
    + intros [->|Hin].
      * rewrite bool_decide_eq_true_2 by reflexivity.
        rewrite IHout by exact Hfresh.
        eexists. split; [reflexivity|]. unfold row_scores.
        cbn [database.sc_up database.sc_points_earned].
        rewrite result_of_points.
        destruct (database.up (result_of env svc)); [left | right];
          split; reflexivity.
      * rewrite bool_decide_eq_false_2; [apply IHin, Hin|].
        intros Heq. apply Hfresh. rewrite Heq. apply in_map, Hin.
    + intros Hout. rewrite bool_decide_eq_false_2.
      * apply IHout. intros Hin. apply Hout. right. exact Hin.
      * intros Heq. apply Hout. left. exact Heq.
Qed.

Lemma one_row_per_round_save (ts : str) (d : database.Database) (env : Env) :
  one_row_per_round RANGE_ID d ->
  one_row_per_round RANGE_ID
    (database.save_round ts d
       (List.map (result_of env) (config.SERVICES RANGE_ID))
       (Zsum (List.map database.points_earned
                (List.map (result_of env) (config.SERVICES RANGE_ID))))
       (config.MAX_SCORE_PER_ROUND RANGE_ID)).
Proof.
  unfold one_row_per_round. rewrite !List.Forall_forall.
  intros H svc Hsvc. destruct (H svc Hsvc) as [Hlen Hrows].
  unfold database.save_round.
  cbn [database.service_checks database.check_rounds].
  unfold database.rows_of in *. rewrite List.filter_app.
  destruct (rows_of_inserted env (database.seq_rounds d + 1)
              (config.SERVICES RANGE_ID) (database.seq_checks d) svc
              (configured_ids_distinct RANGE_ID)) as [Hin _].
  destruct (Hin Hsvc) as (row & Hrow & Hscore).
  unfold database.rows_of in Hrow. rewrite Hrow. cbv zeta. split.
  - rewrite !length_app, Hlen. reflexivity.
  - apply Forall_app. split; [exact Hrows|]. constructor; [exact Hscore|].
    constructor.
Qed.

Lemma one_row_per_round_step (r : Round) (w : World) :
  one_row_per_round RANGE_ID (db w) ->
  one_row_per_round RANGE_ID (db (loop_body RANGE_ID r w)).
Proof.
  intros H. destruct (save_raises r) as [e|] eqn:Hsave.
  - destruct (loop_body_when_save_raises RANGE_ID r w e Hsave)
      as (_ & _ & _ & _ & _ & H6 & _).
    rewrite H6. exact H.
  - destruct (loop_body_when_save_succeeds RANGE_ID r w Hsave)
      as (_ & Hdb & _).
    rewrite Hdb. apply one_row_per_round_save, H.
Qed.

Lemma one_row_per_round_startup : one_row_per_round RANGE_ID (db startup).
Proof.
  unfold one_row_per_round. apply List.Forall_forall. intros svc _.
  split; [reflexivity | constructor].
Qed.

Lemma scored_rows_totals (svc : service)
    (mine : list database.service_check) :
  Forall (row_scores svc) mine ->
  0 <= Zsum (List.map database.sc_up mine) <= Z.of_nat (length mine)
  /\ Zsum (List.map database.sc_points_earned mine)
     = points svc * Zsum (List.map database.sc_up mine).
Proof.
  induction 1 as [|row mine Hrow _ IH]; cbn [List.map length].
  - unfold Zsum. cbn. lia.
  - rewrite !Zsum_cons.
    destruct Hrow as [[-> ->] | [-> ->]]; lia.
Qed.

End Stats.

(** X17. After any number of passes from startup, the statistics of
    every configured service agree with the rounds stored: there is no
    entry for it while no round has been stored; otherwise its number of
    checks is the number of stored rounds, its up count lies between 0 and
    that number, and its total points are its configured points times its
    up count. *)
Theorem service_stats_after_rounds (RANGE_ID : Z) (rounds : list Round) :
  let w := _scheduler_loop RANGE_ID rounds startup in
  Forall
    (fun svc =>
       match database.get_service_stats (db w) !! svc_id svc with
       | None => saved_count rounds = 0%nat
       | Some s =>
           database.total_checks s = Z.of_nat (saved_count rounds)
           /\ 0 <= database.up_count s <= database.total_checks s
           /\ database.total_points s = points svc * database.up_count s
       end)
    (config.SERVICES RANGE_ID).
Proof.
  intros w.
  pose proof (scheduler_loop_preserves RANGE_ID
                (fun w => one_row_per_round RANGE_ID (db w))
                (one_row_per_round_step RANGE_ID) rounds startup
                (one_row_per_round_startup RANGE_ID)) as Hinv.
  pose proof (round_count_loop RANGE_ID rounds startup) as Hcount.
  fold w in Hinv, Hcount.
  change (database.get_round_count (db startup)) with 0 in Hcount.
  rewrite Z.add_0_l in Hcount. unfold database.get_round_count in Hcount.
  apply Nat2Z.inj in Hcount.
  unfold one_row_per_round in Hinv.
  eapply List.Forall_impl; [|exact Hinv]. cbv beta zeta.
  intros svc [Hlen Hrows].
  unfold database.get_service_stats. rewrite stats_lookup_rows.
  destruct (scored_rows_totals svc _ Hrows) as [Hup Hpts].
  rewrite Hcount in Hlen. clear Hcount Hrows.
  destruct (database.rows_of (svc_id svc) (database.service_checks (db w)))
    as [|row mine].
  - symmetry. exact Hlen.
  - cbn [database.total_checks database.up_count database.total_points].
    split; [rewrite Hlen; reflexivity|]. split; [exact Hup | exact Hpts].
Qed.

(* ===================================================================== *)
(** * Range detection *)
(* ===================================================================== *)

Section Splitting.

Lemma lstrip_spaces (indent s : str) :
  Forall (fun c => isspace c = true) indent ->
  lstrip (indent ++ s) = lstrip s.
Proof.
  induction 1 as [|c indent Hc _ IH]; [reflexivity|].
  cbn [app lstrip]. rewrite Hc. exact IH.
Qed.

Lemma lstrip_before_nonspace (a : str) (c : N) (b : str) :
  isspace c = false -> lstrip (a ++ c :: b) = lstrip a ++ c :: b.
Proof.
  intros Hc. induction a as [|x a IH]; cbn [app lstrip].
  - rewrite Hc. reflexivity.
  - destruct (isspace x); [exact IH | reflexivity].
Qed.

Lemma rstrip_after_nonspace (p : str) (c : N) (t : str) :
  isspace c = false ->
  rev (lstrip (rev (p ++ c :: t))) = p ++ c :: rev (lstrip (rev t)).
Proof.
  intros Hc. rewrite rev_app_distr. cbn [rev]. rewrite <- app_assoc.
  cbn [app]. rewrite lstrip_before_nonspace by exact Hc.
  rewrite rev_app_distr. cbn [rev]. rewrite rev_involutive, <- app_assoc.
  reflexivity.
Qed.

Lemma split_ws_aux_nonspace (w cur rest : str) :
  Forall (fun c => isspace c = false) w ->
  split_ws_aux cur (w ++ rest) = split_ws_aux (rev w ++ cur) rest.
Proof.
  intros H. revert cur. induction H as [|c w Hc _ IH]; intros cur;
    [reflexivity|].
  cbn [app split_ws_aux rev]. rewrite Hc, IH, <- app_assoc. reflexivity.
Qed.

Lemma split_ws_aux_word (s cur : str) :
  cur <> [] ->
  exists more, split_ws_aux cur s = (rev cur ++ word s) :: more.
Proof.
  revert cur. induction s as [|c s IH]; intros cur Hcur.
  - destruct cur; [contradiction|]. cbn [split_ws_aux word].
    rewrite app_nil_r. eauto.
  - cbn [split_ws_aux word]. destruct (isspace c).
    + destruct cur; [contradiction|]. rewrite app_nil_r. eauto.
    + destruct (IH (c :: cur)) as [more ->]; [discriminate|].
      cbn [rev]. rewrite <- app_assoc. eauto.
Qed.

Lemma word_nonspace (w rest : str) :
  Forall (fun c => isspace c = false) w -> word (w ++ rest) = w ++ word rest.
Proof.
  induction 1 as [|c w Hc _ IH]; [reflexivity|].
  cbn [app word]. rewrite Hc, IH. reflexivity.
Qed.

(** The second field of a line that starts with a word and one blank. *)
Lemma second_field (first : str) (c : N) (rest : str) :
  first <> [] -> Forall (fun c => isspace c = false) first ->
  isspace c = false ->
  nth_error (split_ws (first ++ 32%N :: c :: rest)) 1
  = Some (c :: word rest).
Proof.
  intros Hne Hfirst Hc. unfold split_ws.
  rewrite split_ws_aux_nonspace by exact Hfirst. rewrite app_nil_r.
  cbn [split_ws_aux]. change (isspace 32) with true. cbn iota.
  destruct (rev first) eqn:Hrev.
  - apply (f_equal (@rev N)) in Hrev. rewrite rev_involutive in Hrev.
    contradiction.
  - rewrite <- Hrev. rewrite Hc.
    destruct (split_ws_aux_word rest [c]) as [more ->]; [discriminate|].
    reflexivity.
Qed.


Lemma split_dot_aux_piece (a cur rest : str) :
  Forall (fun c => c <> 46%N) a ->
  split_dot_aux cur (a ++ 46%N :: rest)
  = (rev cur ++ a) :: split_dot_aux [] rest.
Proof.
  intros H. revert cur. induction H as [|c a Hc _ IH]; intros cur.
  - cbn [app split_dot_aux]. rewrite app_nil_r. reflexivity.
  - cbn [app split_dot_aux]. apply N.eqb_neq in Hc. rewrite Hc, IH.
    cbn [rev]. rewrite <- app_assoc. reflexivity.
Qed.


End Splitting.

Section Detect.
Import config.
Variable py_int : str -> Result Z.

Lemma plain_nonspace (s : str) :
  plain s -> Forall (fun c => isspace c = false) s.
Proof. apply List.Forall_impl. tauto. Qed.

Lemma plain_no_slash (s : str) : plain s -> Forall (fun c => c <> 47%N) s.
Proof. apply List.Forall_impl. tauto. Qed.

Lemma plain_no_dot (s : str) : plain s -> Forall (fun c => c <> 46%N) s.
Proof. apply List.Forall_impl. tauto. Qed.

Lemma split_on_aux_hd (sep : N) (s cur : str) :
  exists w, hd [] (split_on_aux sep cur s) = rev cur ++ w.
Proof.
  revert cur. induction s as [|c s IH]; intros cur; cbn [split_on_aux].
  - exists []. cbn. rewrite app_nil_r. reflexivity.
  - destruct (c =? sep)%N.
    + exists []. cbn. rewrite app_nil_r. reflexivity.
    + destruct (IH (c :: cur)) as [w ->]. exists (c :: w).
      cbn [rev]. rewrite <- app_assoc. reflexivity.
Qed.

Lemma split_on_aux_hd_prefix (sep : N) (p s cur : str) :
  Forall (fun c => c <> sep) p ->
  exists w, hd [] (split_on_aux sep cur (p ++ s)) = rev cur ++ p ++ w.
Proof.
  intros H. revert cur. induction H as [|c p Hc _ IH]; intros cur.
  - apply split_on_aux_hd.
  - cbn [app split_on_aux]. apply N.eqb_neq in Hc. rewrite Hc.
    destruct (IH (c :: cur)) as [w ->]. exists w.
    cbn [rev]. rewrite <- !app_assoc. reflexivity.
Qed.

(** An [inet] line of another network is passed over. *)
Lemma range_of_line_other_network (indent a rest : str) :
  Forall (fun c => isspace c = true) indent ->
  plain a -> a <> [] -> a <> lit "10" ->
  range_of_line py_int (indent ++ lit "inet " ++ a ++ 46%N :: rest)
  = Ok None.
Proof.
  intros Hindent Ha Hne H10. unfold range_of_line.
  destruct (negb _ || _); [reflexivity|].
  destruct a as [|a0 a']; [contradiction|].
  assert (strip (indent ++ lit "inet " ++ (a0 :: a') ++ 46%N :: rest)
          = lit "inet" ++ 32%N :: a0
            :: (a' ++ [46%N]) ++ rev (lstrip (rev rest))) as ->.
  { unfold strip. rewrite lstrip_spaces by exact Hindent.
    change (lstrip (lit "inet " ++ (a0 :: a') ++ 46%N :: rest))
      with (lit "inet " ++ (a0 :: a') ++ 46%N :: rest).
    replace (lit "inet " ++ (a0 :: a') ++ 46%N :: rest)
      with ((lit "inet " ++ (a0 :: a')) ++ 46%N :: rest)
      by (rewrite <- !app_assoc; reflexivity).
    rewrite rstrip_after_nonspace by reflexivity.
    rewrite <- !app_assoc. reflexivity. }
  pose proof (plain_nonspace _ Ha) as Hsp.
  inversion Hsp as [|? ? Hsp0 Hsp']; subst.
  unfold index.
  rewrite second_field; [|discriminate|repeat constructor|exact Hsp0].
  cbn [bind].
  rewrite word_nonspace
    by (apply Forall_app; split; [exact Hsp' | repeat constructor]).
  unfold split_on.
  replace (a0 :: (a' ++ [46%N]) ++ word (rev (lstrip (rev rest))))
    with (((a0 :: a') ++ [46%N]) ++ word (rev (lstrip (rev rest))))
    by (rewrite <- !app_assoc; reflexivity).
  destruct (split_on_aux_hd_prefix 47 ((a0 :: a') ++ [46%N])
              (word (rev (lstrip (rev rest)))) []) as [w ->].
  { apply Forall_app. split; [apply plain_no_slash, Ha|].
    repeat constructor. discriminate. }
  cbn [rev app]. unfold split_dot.
  rewrite <- app_assoc. cbn [app].
  change (a0 :: a' ++ 46%N :: w) with ((a0 :: a') ++ 46%N :: w).
  rewrite split_dot_aux_piece by (apply plain_no_dot, Ha).
  cbn [rev app nth]. unfold checks.str_eq at 1.
  rewrite (bool_decide_eq_false_2 _ H10).
  rewrite andb_false_r. reflexivity.
Qed.

Lemma range_of_line_ignored (line : str) :
  ignored line -> range_of_line py_int line = Ok None.
Proof.
  intros [H | [H | (indent & a & rest & -> & Hi & Ha & Hne & H10)]].
  - unfold range_of_line. rewrite H. reflexivity.
  - unfold range_of_line. rewrite H, orb_true_r. reflexivity.
  - apply range_of_line_other_network; assumption.
Qed.

Lemma first_range_ignored (before rest : list str) :
  Forall ignored before ->
  first_range py_int (before ++ rest) = first_range py_int rest.
Proof.
  induction 1 as [|l before Hl _ IH]; [reflexivity|].
  cbn [app first_range]. rewrite (range_of_line_ignored l Hl). exact IH.
Qed.


End Detect.

(** X18. Range detection falls back to 10 when [ip addr show] cannot be
    run, and when every line of its output is passed over: lines without
    ["inet "], loopback lines, and [inet] lines of networks that do not
    start with 10.  Empty output is such a case. *)
Theorem detect_range_id_default (py_int : str -> Result Z) :
  (forall e, config._detect_range_id py_int (Raise e) = 10)
  /\ (forall stdout,
        Forall config.ignored (splitlines stdout) ->
        config._detect_range_id py_int (Ok stdout) = 10).
Proof.
  split; [reflexivity|]. intros stdout H.
  unfold config._detect_range_id. cbn [bind].
  rewrite <- (app_nil_r (splitlines stdout)).
  rewrite (first_range_ignored py_int _ [] H). reflexivity.
Qed.



Lemma detect_range_id_default_witness :
  Forall config.ignored
    (splitlines (lit "1: lo: <LOOPBACK>" ++ [10%N]
                 ++ lit "    inet 127.0.0.1/8 scope host lo" ++ [10%N]))
  /\ config._detect_range_id samples.ascii_int
       (Ok (lit "1: lo: <LOOPBACK>" ++ [10%N]
            ++ lit "    inet 127.0.0.1/8 scope host lo" ++ [10%N]))
     = 10.
Proof.
  assert (Forall config.ignored
            (splitlines (lit "1: lo: <LOOPBACK>" ++ [10%N]
                         ++ lit "    inet 127.0.0.1/8 scope host lo"
                         ++ [10%N]))) as H.
  { vm_compute splitlines. constructor; [left; vm_compute; reflexivity|].
    constructor; [right; left; vm_compute; reflexivity|]. constructor. }
  split; [exact H|].
  destruct (detect_range_id_default samples.ascii_int) as [_ Hd].
  apply Hd, H.
Defined.



(* ===================================================================== *)
(** * Two more compositions *)
(* ===================================================================== *)

(** X21. The TCP check reports up exactly when the connection is
    established, without reading anything from it; a failure that is an
    [OSError] gives down and names the cause. *)
Theorem check_tcp_up_iff (env : Env) (host : str) (port : Z) :
  ((exists m, check_tcp env host port = Ok (true, m))
   <-> exists s, tcp_connect env host port = Ok s)
  /\ ((exists m, check_tcp env host port = Ok (false, m))
      <-> exists e, tcp_connect env host port = Raise e
                    /\ is_OSError e = true).
Proof.
  unfold check_tcp, try_except, bind, _tcp_connect.
  destruct (tcp_connect env host port) as [s|e].
  - split; split.
    + intros _. eauto.
    + intros _. eauto.
    + intros [m H]. discriminate H.
    + intros (e & H & _). discriminate H.
  - split; split.
    + intros [m H]. destruct e; cbn in H; discriminate H.
    + intros [s H]. discriminate H.
    + intros [m H]. exists e. split; [reflexivity|].
      destruct e; cbn in H; try discriminate H; reflexivity.
    + intros (e' & H & Hos). injection H as <-.
      destruct e; cbn in Hos; try discriminate Hos; cbn; eauto.
Qed.

(** X22. Right after a save, the newest entry of both queries is the
    round just saved: [get_recent_rounds(1)] is its header, numbered one
    above the number of earlier rounds, and [get_score_history(1)] is its
    time stamp, score and maximum. *)
Theorem newest_round_is_the_saved_one
    (calls : list database.saved) (c : database.saved) :
  let db := database.db_after (calls ++ [c]) in
  database.get_recent_rounds db 1
  = [ {| database.id := Z.of_nat (length calls) + 1;
         database.timestamp := database.saved_at c;
         database.round_score := database.saved_score c;
         database.max_score := database.saved_max c |} ]
  /\ database.get_score_history db 1
     = [ (database.saved_at c, database.saved_score c, database.saved_max c) ].
Proof.
  intros db. subst db.
  pose proof (db_after_ascend (calls ++ [c])) as [Hs _].
  unfold database.get_score_history, database.get_recent_rounds.
  rewrite (order_by_id_desc_rev _ Hs).
  rewrite db_after_snoc. unfold database.save_round.
  cbn [database.check_rounds]. rewrite rev_app_distr. cbn [rev app].
  destruct (db_after_well_formed calls) as (_ & -> & _).
  rewrite db_after_rounds_length.
  split; reflexivity.
Qed.
